(** * Ants Vs. SomeBees: the entity/combat engine of [projects/ants/ants.py]

    A shallow embedding of the engine.  Python objects live in two stores
    (places and insects) addressed by references, so that aliasing and in-place
    mutation are explicit; every method is a computation in a state-and-error
    monad over the whole program state. *)

From Stdlib Require Import ZArith Lia.
From stdpp Require Import base option gmap strings list pretty.

Local Open Scope string_scope.
Local Open Scope Z_scope.
Local Open Scope list_scope.

(** ** Object references *)

Definition loc := nat.  (* a Place object *)
Definition ref := nat.  (* an Insect object *)

(** ** Classes and their class attributes *)

(** The instantiable subclasses of [Insect]: [Bee] and the implemented ants. *)
Inductive InsectType :=
  | Bee | HarvesterAnt | ThrowerAnt | FireAnt | LongThrower | ShortThrower
  | WallAnt | NinjaAnt | ScubaThrower | HungryAnt | BodyguardAnt | QueenAnt
  | AntRemover | SlowThrower | StunThrower.

Global Instance InsectType_eq_dec : EqDecision InsectType.
Proof. solve_decision. Defined.

(** [Place], and its subclasses [Hive] and [Water]. *)
Inductive PlaceType := TPlace | THive | TWater.

Global Instance PlaceType_eq_dec : EqDecision PlaceType.
Proof. solve_decision. Defined.

Definition is_ant (t : InsectType) : bool :=
  match t with Bee => false | _ => true end.

Definition cls_name (t : InsectType) : string :=
  match t with
  | Bee => "Bee" | HarvesterAnt => "Harvester" | ThrowerAnt => "Thrower"
  | FireAnt => "Fire" | LongThrower => "Long" | ShortThrower => "Short"
  | WallAnt => "Wall" | NinjaAnt => "Ninja" | ScubaThrower => "Scuba"
  | HungryAnt => "Hungry" | BodyguardAnt => "Bodyguard" | QueenAnt => "Queen"
  | AntRemover => "Remover" | SlowThrower => "Slow" | StunThrower => "Stun"
  end.

Definition watersafe (t : InsectType) : bool :=
  match t with Bee | ScubaThrower | QueenAnt => true | _ => false end.

(** The class attribute [damage]; an instance may shadow it (see [Insect.damage]). *)
Definition cls_damage (t : InsectType) : Z :=
  match t with
  | ThrowerAnt | LongThrower | ShortThrower | ScubaThrower | QueenAnt
  | SlowThrower | StunThrower | NinjaAnt => 1
  | FireAnt => 3
  | _ => 0
  end.

Definition food_cost (t : InsectType) : Z :=
  match t with
  | HarvesterAnt => 2
  | ThrowerAnt | FireAnt | WallAnt | HungryAnt | BodyguardAnt | SlowThrower => 4
  | LongThrower | ShortThrower => 3
  | ScubaThrower => 5
  | NinjaAnt | QueenAnt | StunThrower => 6
  | Bee | AntRemover => 0
  end.

Definition block_path (t : InsectType) : bool :=
  match t with NinjaAnt => false | _ => true end.

Definition container (t : InsectType) : bool :=
  match t with BodyguardAnt => true | _ => false end.

Definition min_range (t : InsectType) : Z :=
  match t with LongThrower => 4 | _ => 0 end.

Definition max_range (t : InsectType) : Z :=
  match t with ShortThrower => 2 | _ => 10 end.

Definition time_to_digest : Z := 3.

(** Subclasses of [ThrowerAnt], which inherit [nearest_bee]. *)
Definition is_thrower (t : InsectType) : bool :=
  match t with
  | ThrowerAnt | LongThrower | ShortThrower | ScubaThrower | QueenAnt
  | SlowThrower | StunThrower => true
  | _ => false
  end.

(** ** Per-turn actions as values

    [bee.action] is either the bound method of the bee's class or a closure
    [after_effect] installed by [apply_effect], which captures the effect, the
    mutable cell [duration] and the action it replaced. *)

Inductive Effect := make_slow | make_stun.

Inductive Action :=
  | Method
  | after_effect (effect : Effect) (duration : Z) (original_action : Action).

(** ** Records *)

Module Place.
Record t := mk {
  name : string;
  type : PlaceType;
  exit : option loc;
  bees : list ref;
  ant : option ref;
  entrance : option loc
}.
Definition set_bees (v : list ref) (p : t) : t :=
  mk (name p) (type p) (exit p) v (ant p) (entrance p).
Definition set_ant (v : option ref) (p : t) : t :=
  mk (name p) (type p) (exit p) (bees p) v (entrance p).
Definition set_entrance (v : option loc) (p : t) : t :=
  mk (name p) (type p) (exit p) (bees p) (ant p) v.
End Place.

Module Insect.
Record t := mk {
  type : InsectType;
  armor : Z;
  place : option loc;
  damage : Z;                  (* instance attribute once doubled, else the class's *)
  action : Action;
  digesting : Z;               (* HungryAnt *)
  ant : option ref;            (* BodyguardAnt: the ant hidden in this bodyguard *)
  double_dmg_ants : list ref;  (* QueenAnt *)
  true_queen : bool            (* QueenAnt *)
}.
Definition set_armor (v : Z) (i : t) : t :=
  mk (type i) v (place i) (damage i) (action i) (digesting i) (ant i)
     (double_dmg_ants i) (true_queen i).
Definition set_place (v : option loc) (i : t) : t :=
  mk (type i) (armor i) v (damage i) (action i) (digesting i) (ant i)
     (double_dmg_ants i) (true_queen i).
Definition set_damage (v : Z) (i : t) : t :=
  mk (type i) (armor i) (place i) v (action i) (digesting i) (ant i)
     (double_dmg_ants i) (true_queen i).
Definition set_action (v : Action) (i : t) : t :=
  mk (type i) (armor i) (place i) (damage i) v (digesting i) (ant i)
     (double_dmg_ants i) (true_queen i).
Definition set_digesting (v : Z) (i : t) : t :=
  mk (type i) (armor i) (place i) (damage i) (action i) v (ant i)
     (double_dmg_ants i) (true_queen i).
Definition set_ant (v : option ref) (i : t) : t :=
  mk (type i) (armor i) (place i) (damage i) (action i) (digesting i) v
     (double_dmg_ants i) (true_queen i).
Definition set_double_dmg_ants (v : list ref) (i : t) : t :=
  mk (type i) (armor i) (place i) (damage i) (action i) (digesting i) (ant i)
     v (true_queen i).
End Insect.

(** [colony.queen] is the [Place] 'AntQueen' until a true queen acts; each of
    her actions wraps the current value in a fresh [QueenPlace]. *)
Inductive QueenRef :=
  | APlace (p : loc)
  | QueenPlace (colony_queen : QueenRef) (ant_queen : loc).

(** What the program prints. *)
Inductive Output :=
  | Expired (r : ref)               (* '{0} ran out of armor and expired' *)
  | NotEnoughFood (ant_type_name : string)
  | Perished                        (* 'The ant queen has perished. ...' *)
  | Vanquished.                     (* 'All bees are vanquished. You win!' *)

(** ** Program state: the two object stores, the attributes of the
    [AntColony], the class counter of [QueenAnt], the random source and the
    printed output. *)
Record State := mkState {
  place_store : gmap loc Place.t;
  insect_store : gmap ref Insect.t;
  time : Z;
  food : Z;
  hive : loc;
  queen : QueenRef;
  places : list (string * loc);          (* OrderedDict: name -> Place *)
  bee_entrances : list loc;
  ant_types : list (string * InsectType); (* OrderedDict: name -> class *)
  assault_plan : list (Z * list ref);    (* hive.assault_plan *)
  number_of_queens : Z;                  (* QueenAnt.number_of_queens *)
  random : list nat;                     (* future draws of the generator *)
  stdout : list Output
}.

Definition set_place_store v (s : State) : State :=
  mkState v (insect_store s) (time s) (food s) (hive s) (queen s) (places s)
    (bee_entrances s) (ant_types s) (assault_plan s) (number_of_queens s)
    (random s) (stdout s).
Definition set_insect_store v (s : State) : State :=
  mkState (place_store s) v (time s) (food s) (hive s) (queen s) (places s)
    (bee_entrances s) (ant_types s) (assault_plan s) (number_of_queens s)
    (random s) (stdout s).
Definition set_time v (s : State) : State :=
  mkState (place_store s) (insect_store s) v (food s) (hive s) (queen s)
    (places s) (bee_entrances s) (ant_types s) (assault_plan s)
    (number_of_queens s) (random s) (stdout s).
Definition set_food v (s : State) : State :=
  mkState (place_store s) (insect_store s) (time s) v (hive s) (queen s)
    (places s) (bee_entrances s) (ant_types s) (assault_plan s)
    (number_of_queens s) (random s) (stdout s).
Definition set_hive v (s : State) : State :=
  mkState (place_store s) (insect_store s) (time s) (food s) v (queen s)
    (places s) (bee_entrances s) (ant_types s) (assault_plan s)
    (number_of_queens s) (random s) (stdout s).
Definition set_queen v (s : State) : State :=
  mkState (place_store s) (insect_store s) (time s) (food s) (hive s) v
    (places s) (bee_entrances s) (ant_types s) (assault_plan s)
    (number_of_queens s) (random s) (stdout s).
Definition set_places v (s : State) : State :=
  mkState (place_store s) (insect_store s) (time s) (food s) (hive s) (queen s)
    v (bee_entrances s) (ant_types s) (assault_plan s) (number_of_queens s)
    (random s) (stdout s).
Definition set_bee_entrances v (s : State) : State :=
  mkState (place_store s) (insect_store s) (time s) (food s) (hive s) (queen s)
    (places s) v (ant_types s) (assault_plan s) (number_of_queens s)
    (random s) (stdout s).
Definition set_assault_plan v (s : State) : State :=
  mkState (place_store s) (insect_store s) (time s) (food s) (hive s) (queen s)
    (places s) (bee_entrances s) (ant_types s) v (number_of_queens s)
    (random s) (stdout s).
Definition set_number_of_queens v (s : State) : State :=
  mkState (place_store s) (insect_store s) (time s) (food s) (hive s) (queen s)
    (places s) (bee_entrances s) (ant_types s) (assault_plan s) v
    (random s) (stdout s).
Definition set_random v (s : State) : State :=
  mkState (place_store s) (insect_store s) (time s) (food s) (hive s) (queen s)
    (places s) (bee_entrances s) (ant_types s) (assault_plan s)
    (number_of_queens s) v (stdout s).
Definition set_stdout v (s : State) : State :=
  mkState (place_store s) (insect_store s) (time s) (food s) (hive s) (queen s)
    (places s) (bee_entrances s) (ant_types s) (assault_plan s)
    (number_of_queens s) (random s) v.

(** ** The monad *)

(** Python exceptions the engine can raise, and the two ways the model itself
    can give up: a reference to no object, and a loop out of fuel. *)
Inductive Exn :=
  | AssertionError | AttributeError | ValueError | KeyError | IndexError
  | Dangling | OutOfFuel.

Inductive Res (A : Type) :=
  | Ok (a : A)
  | Err (e : Exn).
Arguments Ok {A} a.
Arguments Err {A} e.

Definition M (A : Type) : Type := State → Res (A * State).

Global Instance M_ret : MRet M := λ A a s, Ok (a, s).
Global Instance M_bind : MBind M := λ A B f m s,
  match m s with
  | Ok (a, s') => f a s'
  | Err e => Err e
  end.

Definition raise {A} (e : Exn) : M A := λ _, Err e.
Definition get : M State := λ s, Ok (s, s).
Definition modify (f : State → State) : M unit := λ s, Ok (tt, f s).

(** The final state of a computation that returns. *)
Definition exec {A} (m : M A) (s : State) : Res State :=
  match m s with
  | Ok (_, s') => Ok s'
  | Err e => Err e
  end.

(** Attribute access on [None] raises [AttributeError]. *)
Definition deref {A} (o : option A) : M A :=
  match o with
  | Some a => mret a
  | None => raise AttributeError
  end.

Definition get_insect (r : ref) : M Insect.t := λ s,
  match insect_store s !! r with
  | Some i => Ok (i, s)
  | None => Err Dangling
  end.

Definition get_place (p : loc) : M Place.t := λ s,
  match place_store s !! p with
  | Some pl => Ok (pl, s)
  | None => Err Dangling
  end.

Definition upd_insect (r : ref) (f : Insect.t → Insect.t) : M unit :=
  modify (λ s, set_insect_store (alter f r (insect_store s)) s).

Definition upd_place (p : loc) (f : Place.t → Place.t) : M unit :=
  modify (λ s, set_place_store (alter f p (place_store s)) s).

Definition print (o : Output) : M unit :=
  modify (λ s, set_stdout (stdout s ++ [o]) s).

(** [for x in l: body(x)] *)
Fixpoint for_each {A} (l : list A) (body : A → M unit) : M unit :=
  match l with
  | [] => mret tt
  | x :: l' => body x ;; for_each l' body
  end.

(** [l.remove(x)]: drops the first occurrence, [ValueError] when there is none. *)
Fixpoint list_remove (x : ref) (l : list ref) : option (list ref) :=
  match l with
  | [] => None
  | y :: l' => if decide (y = x) then Some l' else (y ::.) <$> list_remove x l'
  end.

(** ** Place *)

(** [Ant.can_contain] *)
Definition can_contain (self other : Insect.t) : bool :=
  container (Insect.type self)
  && bool_decide (Insect.ant self = None)
  && negb (container (Insect.type other)).

(** [BodyguardAnt.contain_ant] *)
Definition contain_ant (self : ref) (a : ref) : M unit :=
  upd_insect self (Insect.set_ant (Some a)).

Definition Place_add_insect (self : loc) (insect : ref) : M unit :=
  i ← get_insect insect;
  (if is_ant (Insect.type i) then
     pl ← get_place self;
     match Place.ant pl with
     | Some cur =>
         c ← get_insect cur;
         if can_contain c i then contain_ant cur insect
         else if can_contain i c then
           contain_ant insect cur ;;
           upd_place self (Place.set_ant (Some insect))
         else raise AssertionError
     | None => upd_place self (Place.set_ant (Some insect))
     end
   else
     upd_place self (λ pl, Place.set_bees (Place.bees pl ++ [insect]) pl)) ;;
  upd_insect insect (Insect.set_place (Some self)).

Definition Place_remove_insect (self : loc) (insect : ref) : M unit :=
  i ← get_insect insect;
  pl ← get_place self;
  if negb (is_ant (Insect.type i)) then
    match list_remove insect (Place.bees pl) with
    | Some bs =>
        upd_place self (Place.set_bees bs) ;;
        upd_insect insect (Insect.set_place None)
    | None => raise ValueError
    end
  else if bool_decide (Place.ant pl = Some insect) then
    if container (Insect.type i) then
      upd_place self (Place.set_ant (Insect.ant i)) ;;
      a ← deref (Insect.ant i) ;
      upd_insect a (Insect.set_place (Some self)) ;;
      upd_insect insect (Insect.set_place None)
    else if bool_decide (Insect.type i = QueenAnt) && Insect.true_queen i then
      mret tt
    else
      upd_place self (Place.set_ant None) ;;
      upd_insect insect (Insect.set_place None)
  else raise AssertionError.

(** ** Insect *)

Definition Insect_reduce_armor (self : ref) (amount : Z) : M unit :=
  upd_insect self (λ i, Insect.set_armor (Insect.armor i - amount) i) ;;
  i ← get_insect self;
  if bool_decide (Insect.armor i <= 0) then
    print (Expired self) ;;
    p ← deref (Insect.place i);
    Place_remove_insect p self
  else mret tt.

(** [FireAnt.reduce_armor].  The elements of a [bees] list are the insects
    for which [is_ant()] is false, that is [Bee]s, whose [reduce_armor] is the
    one of [Insect]. *)
Definition FireAnt_reduce_armor (self : ref) (amount : Z) : M unit :=
  upd_insect self (λ i, Insect.set_armor (Insect.armor i - amount) i) ;;
  i ← get_insect self;
  p ← deref (Insect.place i);
  pl ← get_place p;
  let temp_bees := Place.bees pl in
  if bool_decide (Insect.armor i <= 0) then
    for_each temp_bees (λ bee, Insect_reduce_armor bee (Insect.damage i)) ;;
    i' ← get_insect self;
    p' ← deref (Insect.place i');
    Place_remove_insect p' self
  else mret tt.

(** [insect.reduce_armor(amount)], by the class of [insect]. *)
Definition reduce_armor (insect : ref) (amount : Z) : M unit :=
  i ← get_insect insect;
  match Insect.type i with
  | FireAnt => FireAnt_reduce_armor insect amount
  | _ => Insect_reduce_armor insect amount
  end.

(** ** Water *)

Definition Water_add_insect (self : loc) (insect : ref) : M unit :=
  Place_add_insect self insect ;;
  i ← get_insect insect;
  if negb (watersafe (Insect.type i)) then reduce_armor insect (Insect.armor i)
  else mret tt.

(** [place.add_insect(insect)], by the class of [place]. *)
Definition add_insect (place : loc) (insect : ref) : M unit :=
  pl ← get_place place;
  match Place.type pl with
  | TWater => Water_add_insect place insect
  | _ => Place_add_insect place insect
  end.

(** ** Randomness: [random.choice] takes the next draw of the generator. *)

Definition random_choice (l : list ref) : M ref := λ s,
  match l !! (hd 0%nat (random s) mod length l)%nat with
  | Some x => Ok (x, set_random (tl (random s)) s)
  | None => Err IndexError
  end.

Definition random_or_none (l : list ref) : M (option ref) :=
  match l with
  | [] => mret None
  | _ => x ← random_choice l; mret (Some x)
  end.

(** ** Status effects *)

(** [effect(action)(colony)]: [act] is the call [action(colony)]; it returns
    the state of the closure [action] afterwards, [idle] when it is not called. *)
Definition apply_Effect (effect : Effect) (act : M Action) (idle : Action)
    : M Action :=
  match effect with
  | make_slow =>
      s ← get;
      if bool_decide (time s `mod` 2 = 0) then act else mret idle
  | make_stun => mret idle
  end.

(** [a(colony)], where [method] is the bound method of the insect's class.
    Returns the action with the [duration] cells as the call left them. *)
Fixpoint call (method : M unit) (a : Action) : M Action :=
  match a with
  | Method => method ;; mret Method
  | after_effect effect duration original_action =>
      if bool_decide (duration > 0) then
        orig ← apply_Effect effect (call method original_action) original_action;
        mret (after_effect effect (duration - 1) orig)
      else
        orig ← call method original_action;
        mret (after_effect effect duration orig)
  end.

Definition apply_effect (effect : Effect) (bee : ref) (duration : Z) : M unit :=
  upd_insect bee
    (λ i, Insect.set_action (after_effect effect duration (Insect.action i)) i).

(** The two outcomes of [simulate], by the message it prints. *)
Inductive Outcome := LOST | WON.

(** ** The engine.  [gas] bounds the loops that follow [entrance] and [exit]
    links and the delegation of a bodyguard to the ant it holds. *)
Section Engine.
Variable gas : nat.

(** *** ThrowerAnt *)

(** The [while] loop of [ThrowerAnt.nearest_bee]. *)
Fixpoint nearest_bee_loop (n : nat) (self : Insect.t) (hive : loc)
    (place : option loc) (distance : Z) : M (option ref) :=
  match place with
  | None => mret None
  | Some p =>
      if bool_decide (p = hive) then mret None
      else match n with
           | O => raise OutOfFuel
           | S n' =>
               pl ← get_place p;
               bee ← random_or_none (Place.bees pl);
               if bool_decide (bee ≠ None)
                  && bool_decide (distance >= min_range (Insect.type self))
                  && bool_decide (distance <= max_range (Insect.type self))
               then mret bee
               else nearest_bee_loop n' self hive (Place.entrance pl) (distance + 1)
           end
  end.

Definition nearest_bee (self : ref) (hive : loc) : M (option ref) :=
  i ← get_insect self;
  nearest_bee_loop gas i hive (Insect.place i) 0.

Definition ThrowerAnt_throw_at (self : ref) (target : option ref) : M unit :=
  match target with
  | Some t => i ← get_insect self; reduce_armor t (Insect.damage i)
  | None => mret tt
  end.

Definition SlowThrower_throw_at (self : ref) (target : option ref) : M unit :=
  match target with
  | Some t => apply_effect make_slow t 3
  | None => mret tt
  end.

Definition StunThrower_throw_at (self : ref) (target : option ref) : M unit :=
  match target with
  | Some t => apply_effect make_stun t 1
  | None => mret tt
  end.

(** [self.throw_at(target)], by the class of [self]. *)
Definition throw_at (self : ref) (target : option ref) : M unit :=
  i ← get_insect self;
  match Insect.type i with
  | SlowThrower => SlowThrower_throw_at self target
  | StunThrower => StunThrower_throw_at self target
  | _ => ThrowerAnt_throw_at self target
  end.

Definition ThrowerAnt_action (self : ref) : M unit :=
  s ← get;
  target ← nearest_bee self (hive s);
  throw_at self target.

(** *** Bee *)

Definition Bee_sting (self : ref) (a : ref) : M unit := reduce_armor a 1.

Definition Bee_move_to (self : ref) (place : option loc) : M unit :=
  i ← get_insect self;
  p ← deref (Insect.place i);
  Place_remove_insect p self ;;
  q ← deref place;
  add_insect q self.

Definition Bee_blocked (self : ref) : M bool :=
  i ← get_insect self;
  p ← deref (Insect.place i);
  pl ← get_place p;
  match Place.ant pl with
  | Some a => ai ← get_insect a; mret (block_path (Insect.type ai))
  | None => mret false
  end.

Definition Bee_action (self : ref) : M unit :=
  b ← Bee_blocked self;
  i ← get_insect self;
  p ← deref (Insect.place i);
  pl ← get_place p;
  if (b : bool) then
    a ← deref (Place.ant pl);
    Bee_sting self a
  else if bool_decide (Place.name pl ≠ "Hive") && bool_decide (Insect.armor i > 0)
  then Bee_move_to self (Place.exit pl)
  else mret tt.

(** *** The other ants *)

Definition HarvesterAnt_action (self : ref) : M unit :=
  modify (λ s, set_food (food s + 1) s).

Definition NinjaAnt_action (self : ref) : M unit :=
  i ← get_insect self;
  p ← deref (Insect.place i);
  pl ← get_place p;
  let temp_bees := Place.bees pl in
  for_each temp_bees (λ bee,
    i' ← get_insect self;
    reduce_armor bee (Insect.damage i')).

Definition HungryAnt_eat_bee (self : ref) (bee : ref) : M unit :=
  b ← get_insect bee;
  reduce_armor bee (Insect.armor b).

Definition HungryAnt_action (self : ref) : M unit :=
  i ← get_insect self;
  if bool_decide (Insect.digesting i > 0) then
    upd_insect self (λ i, Insect.set_digesting (Insect.digesting i - 1) i)
  else
    p ← deref (Insect.place i);
    pl ← get_place p;
    bee ← random_or_none (Place.bees pl);
    match bee with
    | Some b =>
        upd_insect self (Insect.set_digesting time_to_digest) ;;
        HungryAnt_eat_bee self b
    | None => mret tt
    end.

(** *** QueenAnt *)

(** [if a not in ants: a.damage = a.damage * 2; ants.append(a)] and the
    body of the two [while] loops of [ants_in_same_tunnel]; both return the
    list [ants] as they leave it. *)
Definition double_damage (a : ref) : M unit :=
  upd_insect a (λ i, Insect.set_damage (Insect.damage i * 2) i).

Definition visit_tunnel_place (pl : Place.t) (ants : list ref) : M (list ref) :=
  match Place.ant pl with
  | Some a =>
      if bool_decide (a ∉ ants) then
        ai ← get_insect a;
        ants ← (if container (Insect.type ai) then
                  inner ← deref (Insect.ant ai);
                  double_damage inner ;;
                  mret (ants ++ [inner])
                else mret ants);
        double_damage a ;;
        mret (ants ++ [a])
      else mret ants
  | None => mret ants
  end.

(** One [while] loop of [ants_in_same_tunnel]; [next] is [Place.entrance]
    for the walk to the left and [Place.exit] for the walk to the right. *)
Fixpoint tunnel_walk (n : nat) (next : Place.t → option loc)
    (cur : option loc) (ants : list ref) : M (list ref) :=
  match cur with
  | None => mret ants
  | Some p =>
      match n with
      | O => raise OutOfFuel
      | S n' =>
          pl ← get_place p;
          ants ← visit_tunnel_place pl ants;
          pl ← get_place p;
          tunnel_walk n' next (next pl) ants
      end
  end.

Definition QueenAnt_ants_in_same_tunnel (self : ref) (ants : list ref)
    : M (list ref) :=
  i ← get_insect self;
  current ← deref (Insect.place i);
  cpl ← get_place current;
  let left := Place.entrance cpl in
  let right := Place.exit cpl in
  a ← deref (Place.ant cpl);
  ai ← get_insect a;
  ants ← (if container (Insect.type ai) then
            if bool_decide (a ∉ ants) then
              double_damage a ;; mret (ants ++ [a])
            else mret ants
          else mret ants);
  ants ← tunnel_walk gas Place.entrance left ants;
  tunnel_walk gas Place.exit right ants.

Definition QueenAnt_action (self : ref) : M unit :=
  i ← get_insect self;
  if negb (Insect.true_queen i) then reduce_armor self (Insect.armor i)
  else
    p ← deref (Insect.place i);
    modify (λ s, set_queen (QueenPlace (queen s) p) s) ;;
    s ← get;
    target ← nearest_bee self (hive s);
    throw_at self target ;;
    i ← get_insect self;
    ants ← QueenAnt_ants_in_same_tunnel self (Insect.double_dmg_ants i);
    upd_insect self (Insect.set_double_dmg_ants ants).

(** *** Dispatch of [insect.action(colony)] *)

(** The [action] method of class [t], given [delegate], the call
    [a.action(colony)] on another insect [a] (used by [BodyguardAnt]). *)
Definition method_action (delegate : ref → M unit) (t : InsectType)
    (self : ref) : M unit :=
  match t with
  | Bee => Bee_action self
  | HarvesterAnt => HarvesterAnt_action self
  | ThrowerAnt | LongThrower | ShortThrower | ScubaThrower
  | SlowThrower | StunThrower => ThrowerAnt_action self
  | NinjaAnt => NinjaAnt_action self
  | HungryAnt => HungryAnt_action self
  | BodyguardAnt =>
      i ← get_insect self;
      a ← deref (Insect.ant i);
      delegate a
  | QueenAnt => QueenAnt_action self
  | FireAnt | WallAnt | AntRemover => mret tt   (* Insect.action *)
  end.

(** [insect.action(colony)]: the attribute [action] of the instance is
    called, and the closure's [duration] cells are stored back.  No action
    assigns the attribute [action] of the insect that is acting
    ([apply_effect] is called by throwers, on bees), so what is stored back
    is the closure that was called. *)
Fixpoint Insect_action (n : nat) (insect : ref) : M unit :=
  i ← get_insect insect;
  a ← call (method_action
              (λ a, match n with
                    | O => raise OutOfFuel
                    | S n' => Insect_action n' a
                    end)
              (Insect.type i) insect)
           (Insect.action i);
  upd_insect insect (Insect.set_action a).

Definition action (insect : ref) : M unit := Insect_action gas insect.

(** *** AntColony *)

(** [d.get(k)] / [d[k]] on a dictionary kept as a list of items. *)
Fixpoint dict_get {K V} `{EqDecision K} (k : K) (d : list (K * V)) : option V :=
  match d with
  | [] => None
  | (k', v) :: d' => if decide (k' = k) then Some v else dict_get k d'
  end.

(** [d[k] = v]: an existing key keeps its position. *)
Fixpoint dict_set {K V} `{EqDecision K} (k : K) (v : V) (d : list (K * V))
    : list (K * V) :=
  match d with
  | [] => [(k, v)]
  | (k', v') :: d' =>
      if decide (k' = k) then (k, v) :: d' else (k', v') :: dict_set k v d'
  end.

Definition lookup_key {K V} `{EqDecision K} (k : K) (d : list (K * V)) : M V :=
  match dict_get k d with
  | Some v => mret v
  | None => raise KeyError
  end.

(** [self.places.values()] as objects. *)
Definition places_values : M (list (loc * Place.t)) :=
  s ← get;
  (fix go (l : list (string * loc)) : M (list (loc * Place.t)) :=
     match l with
     | [] => mret []
     | (_, p) :: l' => pl ← get_place p; r ← go l'; mret ((p, pl) :: r)
     end) (places s).

Definition ants : M (list ref) :=
  ps ← places_values;
  mret (omap (λ x, Place.ant (snd x)) ps).

Definition bees : M (list ref) :=
  ps ← places_values;
  mret (concat (map (λ x, Place.bees (snd x)) ps)).

(** [self.queen.bees], through the [QueenPlace] property. *)
Fixpoint queen_bees (q : QueenRef) : M (list ref) :=
  match q with
  | APlace p => pl ← get_place p; mret (Place.bees pl)
  | QueenPlace cq aq =>
      l1 ← queen_bees cq;
      pl ← get_place aq;
      mret (l1 ++ Place.bees pl)
  end.

(** [Hive.strategy] *)
Definition Hive_strategy (self : loc) : M unit :=
  ps ← places_values;
  let exits := map fst (filter (λ x, Place.entrance (snd x) = Some self) ps) in
  s ← get;
  for_each (default [] (dict_get (time s) (assault_plan s)))
    (λ bee, e ← random_choice exits; Bee_move_to bee (Some e)).

(** The constructors [constructor()] of the ant classes. *)
Definition initial_armor (t : InsectType) : Z :=
  match t with
  | WallAnt => 4
  | BodyguardAnt => 2
  | AntRemover => 0
  | _ => 1
  end.

Definition new_insect (i : Insect.t) : M ref := λ s,
  let r := fresh (dom (insect_store s)) in
  Ok (r, set_insect_store (<[r := i]> (insect_store s)) s).

Definition construct (t : InsectType) : M ref :=
  r ← new_insect (Insect.mk t (initial_armor t) None (cls_damage t) Method 0
                    None [] false);
  (match t with
   | QueenAnt =>
       s ← get;
       if bool_decide (number_of_queens s = 0) then
         modify (set_number_of_queens (number_of_queens s + 1)) ;;
         upd_insect r (λ i, Insect.mk (Insect.type i) (Insect.armor i)
           (Insect.place i) (Insect.damage i) (Insect.action i)
           (Insect.digesting i) (Insect.ant i) (Insect.double_dmg_ants i) true)
       else mret tt
   | _ => mret tt
   end) ;;
  mret r.

Definition deploy_ant (place_name ant_type_name : string) : M unit :=
  s ← get;
  constructor ← lookup_key ant_type_name (ant_types s);
  if bool_decide (food s < food_cost constructor) then
    print (NotEnoughFood ant_type_name)
  else
    p ← lookup_key place_name (places s);
    a ← construct constructor;
    add_insect p a ;;
    modify (λ s, set_food (food s - food_cost constructor) s).

Definition remove_ant (place_name : string) : M unit :=
  s ← get;
  p ← lookup_key place_name (places s);
  pl ← get_place p;
  match Place.ant pl with
  | Some a => Place_remove_insect p a
  | None => mret tt
  end.

(** [for x in l: if x.armor > 0: x.action(self)]; returns how many calls
    of [action] were made, which the program itself does not record. *)
Fixpoint take_actions (l : list ref) : M nat :=
  match l with
  | [] => mret 0%nat
  | x :: l' =>
      i ← get_insect x;
      if bool_decide (Insect.armor i > 0) then
        action x ;; k ← take_actions l'; mret (S k)
      else take_actions l'
  end.

(** The condition of the [while] loop of [simulate]. *)
Definition running : M bool :=
  s ← get;
  qb ← queen_bees (queen s);
  if bool_decide (length qb = 0%nat) then
    bs ← bees;
    mret (bool_decide (0 < length bs)%nat)
  else mret false.

(** One iteration of the loop; returns the number of [bee.action] calls. *)
Definition cycle (strategy : M unit) : M nat :=
  s ← get;
  Hive_strategy (hive s) ;;
  strategy ;;
  l ← ants;
  take_actions l ;;
  l ← bees;
  k ← take_actions l;
  modify (λ s, set_time (time s + 1) s) ;;
  mret k.

(** [AntColony.simulate]: at most [fuel] iterations of the loop.  Returns
    the outcome with the total number of [bee.action] calls made. *)
Fixpoint simulate_loop (fuel : nat) (strategy : M unit) (calls : nat)
    : M (Outcome * nat) :=
  go ← running;
  if (go : bool) then
    match fuel with
    | O => raise OutOfFuel
    | S fuel' =>
        k ← cycle strategy;
        simulate_loop fuel' strategy (calls + k)%nat
    end
  else
    s ← get;
    qb ← queen_bees (queen s);
    if bool_decide (0 < length qb)%nat then print Perished ;; mret (LOST, calls)
    else print Vanquished ;; mret (WON, calls).

Definition simulate (fuel : nat) (strategy : M unit) : M (Outcome * nat) :=
  simulate_loop fuel strategy 0.

End Engine.

(** ** Setting up a game *)

Definition new_place (pl : Place.t) : M loc := λ s,
  let p := fresh (dom (place_store s)) in
  Ok (p, set_place_store (<[p := pl]> (place_store s)) s).

(** [Place.__init__], also that of [Water]. *)
Definition Place_init (t : PlaceType) (name : string) (exit : option loc)
    : M loc :=
  p ← new_place (Place.mk name t exit [] None None);
  match exit with
  | Some e => upd_place e (Place.set_entrance (Some p))
  | None => mret tt
  end ;;
  mret p.

(** [Bee(armor)]; a bee has no [damage] attribute, the field is unused. *)
Definition new_bee (armor : Z) : M ref :=
  new_insect (Insect.mk Bee armor None 0 Method 0 None [] false).

Fixpoint new_bees (bee_armor : Z) (count : nat) : M (list ref) :=
  match count with
  | O => mret []
  | S n => b ← new_bee bee_armor; l ← new_bees bee_armor n; mret (b :: l)
  end.

(** [AssaultPlan.add_wave], on the plan kept as its list of items. *)
Definition add_wave (bee_armor : Z) (time : Z) (count : nat)
    (plan : list (Z * list ref)) : M (list (Z * list ref)) :=
  bs ← new_bees bee_armor count;
  mret (dict_set time (default [] (dict_get time plan) ++ bs) plan).

Definition all_bees (plan : list (Z * list ref)) : list ref :=
  concat (map snd plan).

(** [Hive.__init__] *)
Definition Hive_init (plan : list (Z * list ref)) : M loc :=
  p ← new_place (Place.mk "Hive" THive None [] None None);
  modify (set_assault_plan plan) ;;
  for_each (all_bees plan) (λ bee, Place_add_insect p bee) ;;
  mret p.

(** [register_place] of [AntColony.configure] *)
Definition register_place (place : loc) (is_bee_entrance : bool) : M unit :=
  pl ← get_place place;
  modify (λ s, set_places (dict_set (Place.name pl) place (places s)) s) ;;
  if is_bee_entrance then
    s ← get;
    upd_place place (Place.set_entrance (Some (hive s))) ;;
    modify (λ s, set_bee_entrances (bee_entrances s ++ [place]) s)
  else mret tt.

(** The loop over [step] of [mixed_layout]. *)
Fixpoint layout_steps (steps : list nat) (tunnel length moat_frequency : nat)
    (exit : loc) : M unit :=
  match steps with
  | [] => mret tt
  | step :: rest =>
      e ← (if bool_decide (moat_frequency ≠ 0%nat)
              && bool_decide (((step + 1) `mod` moat_frequency)%nat = 0%nat)
           then Place_init TWater
                  ("water_" +:+ pretty tunnel +:+ "_" +:+ pretty step) (Some exit)
           else Place_init TPlace
                  ("tunnel_" +:+ pretty tunnel +:+ "_" +:+ pretty step) (Some exit));
      register_place e (bool_decide (step = (length - 1)%nat)) ;;
      layout_steps rest tunnel length moat_frequency e
  end.

Definition mixed_layout (queen : loc) (length tunnels moat_frequency : nat)
    : M unit :=
  for_each (seq 0 tunnels)
    (λ tunnel, layout_steps (seq 0 length) tunnel length moat_frequency queen).

Definition test_layout (queen : loc) : M unit := mixed_layout queen 8 1 0.
Definition dry_layout (queen : loc) : M unit := mixed_layout queen 8 3 0.

(** [ant_types()]: the implemented subclasses of [Ant], level by level. *)
Definition all_ant_types : list InsectType :=
  [HarvesterAnt; ThrowerAnt; FireAnt; WallAnt; NinjaAnt; HungryAnt;
   BodyguardAnt; AntRemover; LongThrower; ShortThrower; ScubaThrower;
   SlowThrower; StunThrower; QueenAnt].

(** [AntColony.__init__] with [configure]. *)
Definition AntColony_init (hive : loc) (ant_types : list InsectType)
    (create_places : loc → M unit) (food : Z) : M unit :=
  modify (λ s,
    mkState (place_store s) (insect_store s) 0 food hive (queen s) [] []
      (foldl (λ d a, dict_set (cls_name a) a d) [] ant_types)
      (assault_plan s) (number_of_queens s) (random s) (stdout s)) ;;
  q ← Place_init TPlace "AntQueen" None;
  modify (set_queen (APlace q)) ;;
  register_place hive false ;;
  create_places q.

(** The state in which the program starts, given the draws of the generator. *)
Definition initial (draws : list nat) : State :=
  mkState ∅ ∅ 0 0 0%nat (APlace 0%nat) [] [] [] [] 0 draws [].

(** ** Concrete games *)

(** [start_with_strategy], up to the call of [simulate]: an assault plan with
    the given waves, the hive, and the colony on the given layout. *)
Definition start (bee_armor : Z) (waves : list (Z * nat))
    (layout : loc → M unit) (food : Z) : M unit :=
  plan ← foldr (λ w acc, plan ← acc; add_wave bee_armor (fst w) (snd w) plan)
               (mret []) (reverse waves);
  h ← Hive_init plan;
  AntColony_init h all_ant_types layout food.

(** The state a computation ends in ([s] itself if it raises). *)
Definition state_of {A} (m : M A) (s : State) : State :=
  match m s with
  | Ok (_, s') => s'
  | Err _ => s
  end.

(** One tunnel of eight places, one bee of armor 3 due at time 2. *)
Definition one_tunnel (food : Z) : State :=
  state_of (start 3 [(2, 1%nat)] test_layout food) (initial []).

(** One tunnel of eight places with water at steps 2 and 5. *)
Definition moat_tunnel (food : Z) : State :=
  state_of (start 3 [(2, 1%nat)] (λ q, mixed_layout q 8 1 3) food) (initial []).

(** A lone bodyguard on the first place of the tunnel. *)
Definition lone_bodyguard : State :=
  state_of (deploy_ant "tunnel_0_0" "Bodyguard") (one_tunnel 10).

(** ** Properties of states used in the statements below *)

(** The visible occupant of a place, the ant a bodyguard holds, and the
    place an insect points to. *)
Definition visible_ant (s : State) (p : loc) : option ref :=
  pl ← place_store s !! p; Place.ant pl.

Definition sheltered_ant (s : State) (b : ref) : option ref :=
  i ← insect_store s !! b; Insect.ant i.

Definition place_of (s : State) (r : ref) : option loc :=
  i ← insect_store s !! r; Insect.place i.

(** Adding the bodyguard [b] to the place [p] where the ant [a] stands makes
    [b] the one visible occupant with [a] in its slot, and removing [b] again
    makes [a] the visible occupant of [p]. *)
Definition shelters_and_restores (s : State) (p : loc) (a b : ref) : Prop :=
  ∃ s1 s2,
    add_insect p b s = Ok (tt, s1)
    ∧ visible_ant s1 p = Some b
    ∧ sheltered_ant s1 b = Some a
    ∧ Place_remove_insect p b s1 = Ok (tt, s2)
    ∧ visible_ant s2 p = Some a
    ∧ place_of s2 a = Some p.

(** A scuba thrower on the water place 'water_0_2', and a bodyguard that is
    constructed but not yet placed. *)
Definition scuba_on_water : State :=
  state_of (deploy_ant "water_0_2" "Scuba" ;; construct BodyguardAnt)
    (moat_tunnel 10).

(** A thrower on 'tunnel_0_3', and a bodyguard not yet placed. *)
Definition thrower_in_tunnel : State :=
  state_of (deploy_ant "tunnel_0_3" "Thrower" ;; construct BodyguardAnt)
    (one_tunnel 10).

(** The [Place] objects whose bees [colony.queen.bees] collects. *)
Fixpoint queen_places (q : QueenRef) : list loc :=
  match q with
  | APlace p => [p]
  | QueenPlace cq aq => queen_places cq ++ [aq]
  end.

(** The true queen on 'tunnel_0_0'. *)
Definition queen_in_tunnel : State :=
  state_of (deploy_ant "tunnel_0_0" "Queen") (one_tunnel 10).

(** [k] successive calls [a(colony)] of the action installed on an insect of
    bound method [method]; [between i] is what the program does after the
    call that leaves [i] calls to go.  The closure is threaded from call to
    call, as the attribute [action] of the insect holds it. *)
Fixpoint invocations (method : M unit) (between : nat → M unit) (k : nat)
    (a : Action) : M Action :=
  match k with
  | O => mret a
  | S k' =>
      a' ← call method a;
      between k' ;;
      invocations method between k' a'
  end.

(** The same [k] calls as the description of [apply_effect] has them: the
    first [n] run the effect-transformed original action, the later ones the
    original action itself. *)
Fixpoint transformed_then_original (method : M unit) (between : nat → M unit)
    (effect : Effect) (n k : nat) (original : Action) : M Action :=
  match k with
  | O => mret original
  | S k' =>
      a' ← match n with
           | O => call method original
           | S _ => apply_Effect effect (call method original) original
           end;
      between k' ;;
      transformed_then_original method between effect (pred n) k' a'
  end.

(** A strategy that deploys a thrower on 'tunnel_0_1' and the queen on
    'tunnel_0_0' at time 0, and a bodyguard over the thrower at time 1. *)
Definition guard_the_thrower : M unit :=
  s ← get;
  if bool_decide (time s = 0) then
    deploy_ant "tunnel_0_1" "Thrower" ;;
    deploy_ant "tunnel_0_0" "Queen"
  else if bool_decide (time s = 1) then
    deploy_ant "tunnel_0_1" "Bodyguard"
  else mret tt.

(** The damage attribute of an insect. *)
Definition damage_of (s : State) (r : ref) : option Z :=
  Insect.damage <$> insect_store s !! r.

(** The game of [guard_the_thrower] after its first and second turn. *)
Definition guarded_turn_1 : State :=
  state_of (cycle 9 guard_the_thrower) (one_tunnel 20).
Definition guarded_turn_2 : State :=
  state_of (cycle 9 guard_the_thrower) guarded_turn_1.

(** A strategy that deploys one thrower on the named place at time 0. *)
Definition thrower_at (place_name : string) : M unit :=
  s ← get;
  if bool_decide (time s = 0) then deploy_ant place_name "Thrower"
  else mret tt.

(** The value a computation returns, if it returns. *)
Definition value_of {A} (m : M A) (s : State) : option A :=
  match m s with
  | Ok (a, _) => Some a
  | Err _ => None
  end.

(** The places of the one tunnel that are two steps or more behind the
    entrance of the bees. *)
Definition sheltered_places : list string :=
  ["tunnel_0_0"; "tunnel_0_1"; "tunnel_0_2"; "tunnel_0_3"; "tunnel_0_4";
   "tunnel_0_5"].

(** *** Consistency of places and insects

    The occupants a place lists are insects of the right kind that point back
    to that place, no bee is listed twice, and what a bodyguard holds is an
    ant that is not a container. *)
Definition bee_ok (s : State) (p : loc) (b : ref) : bool :=
  match insect_store s !! b with
  | Some ib =>
      negb (is_ant (Insect.type ib)) && bool_decide (Insect.place ib = Some p)
  | None => false
  end.

Definition ant_ok (s : State) (p : loc) (a : ref) : bool :=
  match insect_store s !! a with
  | Some ia =>
      is_ant (Insect.type ia) && bool_decide (Insect.place ia = Some p)
  | None => false
  end.

Definition place_ok (s : State) (p : loc) (pl : Place.t) : bool :=
  bool_decide (NoDup (Place.bees pl))
  && forallb (bee_ok s p) (Place.bees pl)
  && match Place.ant pl with
     | Some a => ant_ok s p a
     | None => true
     end.

Definition slot_ok (s : State) (i : Insect.t) : bool :=
  match Insect.ant i with
  | Some a =>
      match insect_store s !! a with
      | Some ia => is_ant (Insect.type ia) && negb (container (Insect.type ia))
      | None => false
      end
  | None => true
  end.

Definition consistent (s : State) : bool :=
  forallb (λ x, place_ok s (fst x) (snd x)) (map_to_list (place_store s))
  && forallb (λ x, slot_ok s (snd x)) (map_to_list (insect_store s)).

(** The insect [u] is among the bees its place lists, or is the ant its
    place shows. *)
Definition occupies (s : State) (u : ref) (p : loc) : Prop :=
  ∃ iu pl,
    insect_store s !! u = Some iu
    ∧ Insect.place iu = Some p
    ∧ place_store s !! p = Some pl
    ∧ if is_ant (Insect.type iu) then Place.ant pl = Some u
      else u ∈ Place.bees pl.

(** No place lists [u] among its bees or shows it as its ant, and [u]
    points to no place. *)
Definition gone (s : State) (u : ref) : Prop :=
  place_of s u = None
  ∧ ∀ q ql, place_store s !! q = Some ql →
      (u ∉ Place.bees ql) ∧ Place.ant ql ≠ Some u.

(** The state after [self.armor -= amount]. *)
Definition damaged (s : State) (u : ref) (amount : Z) : State :=
  set_insect_store
    (alter (λ i, Insect.set_armor (Insect.armor i - amount) i) u (insect_store s))
    s.

(** [u] is listed by no place but [p], as a bee if it is a bee and as the
    ant if it is an ant. *)
Definition only_at (s : State) (u : ref) (iu : Insect.t) (p : loc) : Prop :=
  ∀ q ql, place_store s !! q = Some ql →
    (u ∈ Place.bees ql → q = p ∧ is_ant (Insect.type iu) = false)
    ∧ (Place.ant ql = Some u → q = p ∧ is_ant (Insect.type iu) = true).

(** Two bees and a fire ant on 'tunnel_0_7', and a bodyguard over a thrower
    on 'tunnel_0_6', in the game with two bees due at time 0. *)
Definition skirmish : State :=
  state_of
    (start 3 [(0, 2%nat)] test_layout 20 ;;
     (s ← get; Hive_strategy (hive s)) ;;
     deploy_ant "tunnel_0_7" "Fire" ;;
     deploy_ant "tunnel_0_6" "Thrower" ;;
     deploy_ant "tunnel_0_6" "Bodyguard" ;;
     deploy_ant "tunnel_0_0" "Queen")
    (initial []).

(** *** The scan of a thrower

    [follows ps cur path = Some stop]: [path] lists the places reached one
    after the other from [cur] by [entrance] links, and [stop] is what the
    last link leads to. *)
Fixpoint follows (ps : gmap loc Place.t) (cur : option loc) (path : list loc)
    : option (option loc) :=
  match path with
  | [] => Some cur
  | q :: rest =>
      if bool_decide (cur = Some q) then
        pl ← ps !! q; follows ps (Place.entrance pl) rest
      else None
  end.

Definition in_range (t : InsectType) (d : Z) : bool :=
  bool_decide (min_range t ≤ d) && bool_decide (d ≤ max_range t).

(** No place of [path] is the hive, and none has both a bee and a distance
    in range; [d] is the distance of the first place. *)
Fixpoint passes (ps : gmap loc Place.t) (hive : loc) (t : InsectType) (d : Z)
    (path : list loc) : bool :=
  match path with
  | [] => true
  | q :: rest =>
      bool_decide (q ≠ hive)
      && match ps !! q with
         | Some pl => bool_decide (Place.bees pl = []) || negb (in_range t d)
         | None => false
         end
      && passes ps hive t (d + 1) rest
  end.

(** The armor attribute of an insect. *)
Definition armor_of (s : State) (r : ref) : option Z :=
  Insect.armor <$> insect_store s !! r.

(** The thrower of [skirmish], on 'tunnel_0_6' under the bodyguard. *)
Definition skirmish_thrower : Insect.t :=
  Insect.mk ThrowerAnt 1 (Some 8%nat) 1 Method 0 None [] false.

(** Two bees of armor 3 on the water place 'water_0_5': they enter at time 0
    and two turns pass with no ant deployed. *)
Definition bees_on_water : State :=
  state_of
    (start 3 [(0, 2%nat)] (λ q, mixed_layout q 8 1 3) 10 ;;
     cycle 9 (mret tt) ;;
     cycle 9 (mret tt))
    (initial []).

(** *** Relations between states and between computations *)

(** [keeps fld m]: whenever [m] returns, the component [fld] of the state is
    what it was. *)
Definition keeps {X A} (fld : State → X) (m : M A) : Prop :=
  ∀ s a s', m s = Ok (a, s') → fld s' = fld s.

(** Components that the object stores and the printed output do not touch. *)
Class Colony_attr {X} (fld : State → X) : Prop := {
  attr_place_store v s : fld (set_place_store v s) = fld s;
  attr_insect_store v s : fld (set_insect_store v s) = fld s;
  attr_stdout v s : fld (set_stdout v s) = fld s;
  attr_random v s : fld (set_random v s) = fld s
}.

(** [refines m m']: whenever [m] returns, [m'] returns the same. *)
Definition refines {A} (m m' : M A) : Prop :=
  ∀ s r, m s = Ok r → m' s = Ok r.

(** ** Further states and properties *)

(** A lone bodyguard on 'tunnel_0_0' and a thrower constructed but not yet placed. *)
Definition bodyguard_and_thrower : State :=
  state_of (construct ThrowerAnt) lone_bodyguard.

(** The bees a place lists. *)
Definition bees_at (s : State) (p : loc) : option (list ref) :=
  Place.bees <$> place_store s !! p.

(** Two bees of armor 3 on 'tunnel_0_7' with an ant of the named class, in
    the game with two bees due at time 0. *)
Definition at_the_entrance (ant_type_name : string) : State :=
  state_of
    (start 3 [(0, 2%nat)] test_layout 20 ;;
     (s ← get; Hive_strategy (hive s)) ;;
     deploy_ant "tunnel_0_7" ant_type_name)
    (initial []).

(** The hungry ant of [at_the_entrance "Hungry"] after its first action. *)
Definition hungry_after_meal : State :=
  state_of (HungryAnt_action 2%nat) (at_the_entrance "Hungry").

(** Two queens, on 'tunnel_0_0' and 'tunnel_0_1'. *)
Definition two_queens : State :=
  state_of
    (deploy_ant "tunnel_0_0" "Queen" ;; deploy_ant "tunnel_0_1" "Queen")
    (one_tunnel 20).

(** The game of one tunnel with one more bee, made but in no place, and
    [skirmish] with one more ant, a harvester made but not deployed. *)
Definition spare_bee : State := state_of (new_bee 3) (one_tunnel 10).
Definition spare_harvester : State := state_of (construct HarvesterAnt) skirmish.

(** A bee of armor 3, and an ant as its constructor leaves it, in place [p]. *)
Definition bee_3 (p : option loc) : Insect.t :=
  Insect.mk Bee 3 p 0 Method 0 None [] false.
Definition ant_of (t : InsectType) (p : option loc) : Insect.t :=
  Insect.mk t (initial_armor t) p (cls_damage t) Method 0 None [] false.

(** The place 'tunnel_0_7', where the bees enter the one tunnel. *)
Definition entrance_place (bees : list ref) (ant : option ref) : Place.t :=
  Place.mk "tunnel_0_7" TPlace (Some 8%nat) bees ant (Some 0%nat).

(** * Verification *)

(** ** Reasoning about computations *)

Lemma bind_Ok {A B} (m : M A) (f : A → M B) s a s' :
  m s = Ok (a, s') → (m ≫= f) s = f a s'.
Proof. intros H. unfold mbind, M_bind. by rewrite H. Qed.

Lemma bind_Err {A B} (m : M A) (f : A → M B) s e :
  m s = Err e → (m ≫= f) s = Err e.
Proof. intros H. unfold mbind, M_bind. by rewrite H. Qed.

Lemma bind_inv_Ok {A B} (m : M A) (f : A → M B) s b s2 :
  (m ≫= f) s = Ok (b, s2) → ∃ a s1, m s = Ok (a, s1) ∧ f a s1 = Ok (b, s2).
Proof.
  unfold mbind, M_bind. destruct (m s) as [[a s1]|e]; [|done]. eauto.
Qed.

Lemma state_of_Ok {A} (m : M A) s a s1 : m s = Ok (a, s1) → s1 = state_of m s.
Proof. intros H. unfold state_of. by rewrite H. Qed.

Lemma get_insect_Ok r s i :
  insect_store s !! r = Some i → get_insect r s = Ok (i, s).
Proof. intros H. unfold get_insect. by rewrite H. Qed.

Lemma get_place_Ok p s pl :
  place_store s !! p = Some pl → get_place p s = Ok (pl, s).
Proof. intros H. unfold get_place. by rewrite H. Qed.

(** ** C9: a bodyguard that holds no ant cannot act *)

Lemma BodyguardAnt_action_empty gas delegate (self : ref) s i :
  insect_store s !! self = Some i →
  Insect.ant i = None →
  method_action gas delegate BodyguardAnt self s = Err AttributeError.
Proof.
  intros Hi Hant. unfold method_action.
  rewrite (bind_Ok _ _ _ _ _ (get_insect_Ok _ _ _ Hi)).
  by rewrite Hant.
Qed.

(** C9.  For every bodyguard whose slot [ant] is empty, [action] raises
    [AttributeError] (it reads [self.ant.action] on [None]) instead of doing
    nothing; so whenever the bodyguard's action returns, it holds an ant. *)
Theorem C9_bodyguard_action_needs_contained_ant (gas : nat) (s : State)
    (self : ref) (i : Insect.t) :
  insect_store s !! self = Some i →
  Insect.type i = BodyguardAnt →
  Insect.action i = Method →
  (Insect.ant i = None → action gas self s = Err AttributeError)
  ∧ (∀ r, action gas self s = Ok r → is_Some (Insect.ant i)).
Proof.
  intros Hi Hty Hact.
  assert (Insect.ant i = None → action gas self s = Err AttributeError) as H.
  { intros Hant. unfold action. destruct gas as [|n]; simpl;
      rewrite (bind_Ok _ _ _ _ _ (get_insect_Ok _ _ _ Hi)), Hact, Hty; simpl;
      apply bind_Err, bind_Err;
      apply (BodyguardAnt_action_empty 0%nat _ _ _ _ Hi Hant). }
  split; [done|].
  intros r Hr. destruct (Insect.ant i) eqn:E; [eauto|].
  rewrite H in Hr; done.
Qed.

(** ** Attributes that a computation leaves alone *)

Section Keeps.
Context {X : Type} (fld : State → X).

Lemma keeps_ret {A} (a : A) : keeps fld (mret a).
Proof. intros s a' s' [= _ <-]. done. Qed.

Lemma keeps_raise {A} e : keeps fld (@raise A e).
Proof. intros s a s' [=]. Qed.

Lemma keeps_bind {A B} (m : M A) (f : A → M B) :
  keeps fld m → (∀ a, keeps fld (f a)) → keeps fld (m ≫= f).
Proof.
  intros Hm Hf s b s2 H. apply bind_inv_Ok in H as (a & s1 & H1 & H2).
  rewrite (Hf _ _ _ _ H2). eauto.
Qed.

Lemma keeps_get : keeps fld get.
Proof. intros s a s' [= _ <-]. done. Qed.

Lemma keeps_deref {A} (o : option A) : keeps fld (deref o).
Proof. destruct o; [apply keeps_ret | apply keeps_raise]. Qed.

Lemma keeps_get_insect r : keeps fld (get_insect r).
Proof. intros s a s'. unfold get_insect. destruct (_ !! _); [|done]. by intros [= _ <-]. Qed.

Lemma keeps_get_place p : keeps fld (get_place p).
Proof. intros s a s'. unfold get_place. destruct (_ !! _); [|done]. by intros [= _ <-]. Qed.

Lemma keeps_modify f : (∀ s, fld (f s) = fld s) → keeps fld (modify f).
Proof. intros H s a s' [= _ <-]. apply H. Qed.

Lemma keeps_for_each {A} (l : list A) body :
  (∀ x, keeps fld (body x)) → keeps fld (for_each l body).
Proof.
  intros H. induction l as [|x l IH]; simpl; [apply keeps_ret|].
  apply keeps_bind; [apply H | intros _; apply IH].
Qed.

End Keeps.

Global Instance food_attr : Colony_attr food.
Proof. by split. Qed.
Global Instance time_attr : Colony_attr time.
Proof. by split. Qed.
Global Instance hive_attr : Colony_attr hive.
Proof. by split. Qed.
Global Instance queen_attr : Colony_attr queen.
Proof. by split. Qed.
Global Instance places_attr : Colony_attr places.
Proof. by split. Qed.
Global Instance ant_types_attr : Colony_attr ant_types.
Proof. by split. Qed.

Ltac keeps_step :=
  first
    [ apply keeps_ret | apply keeps_raise | apply keeps_get | apply keeps_deref
    | apply keeps_get_insect | apply keeps_get_place
    | apply keeps_bind; [|intros ?]
    | apply keeps_for_each; intros ?
    | apply keeps_modify; intros ?;
      first [apply attr_place_store | apply attr_insect_store
            | apply attr_stdout | apply attr_random]
    | match goal with
      | |- keeps _ (match ?x with _ => _ end) => destruct x
      end ].

Section Keeps_engine.
Context {X : Type} (fld : State → X) `{!Colony_attr fld}.

Lemma keeps_upd_insect r f : keeps fld (upd_insect r f).
Proof. unfold upd_insect. repeat keeps_step. Qed.

Lemma keeps_upd_place p f : keeps fld (upd_place p f).
Proof. unfold upd_place. repeat keeps_step. Qed.

Lemma keeps_print o : keeps fld (print o).
Proof. unfold print. repeat keeps_step. Qed.

Lemma keeps_random_choice l : keeps fld (random_choice l).
Proof.
  intros s a s'. unfold random_choice. destruct (_ !! _); [|done].
  intros [= _ <-]. apply attr_random.
Qed.

Lemma keeps_random_or_none l : keeps fld (random_or_none l).
Proof.
  unfold random_or_none. destruct l; [apply keeps_ret|].
  apply keeps_bind; [apply keeps_random_choice | intros; apply keeps_ret].
Qed.

Lemma keeps_Place_remove_insect p r : keeps fld (Place_remove_insect p r).
Proof.
  unfold Place_remove_insect.
  repeat first [apply keeps_upd_insect | apply keeps_upd_place | keeps_step].
Qed.

Lemma keeps_Insect_reduce_armor r amount : keeps fld (Insect_reduce_armor r amount).
Proof.
  unfold Insect_reduce_armor.
  repeat first [apply keeps_upd_insect | apply keeps_print
               | apply keeps_Place_remove_insect | keeps_step].
Qed.

Lemma keeps_reduce_armor r amount : keeps fld (reduce_armor r amount).
Proof.
  unfold reduce_armor, FireAnt_reduce_armor.
  repeat first [apply keeps_upd_insect | apply keeps_Insect_reduce_armor
               | apply keeps_Place_remove_insect | keeps_step].
Qed.

Lemma keeps_Place_add_insect p r : keeps fld (Place_add_insect p r).
Proof.
  unfold Place_add_insect, contain_ant.
  repeat first [apply keeps_upd_insect | apply keeps_upd_place | keeps_step].
Qed.

Lemma keeps_add_insect p r : keeps fld (add_insect p r).
Proof.
  unfold add_insect, Water_add_insect.
  repeat first [apply keeps_Place_add_insect | apply keeps_reduce_armor | keeps_step].
Qed.

End Keeps_engine.

Example lone_bodyguard_store :
  insect_store lone_bodyguard !! 1%nat
  = Some (Insect.mk BodyguardAnt 2 (Some 2%nat) 0 Method 0 None [] false).
Proof. vm_compute. reflexivity. Qed.

Lemma C9_witness :
  (Insect.ant (Insect.mk BodyguardAnt 2 (Some 2%nat) 0 Method 0 None [] false) = None →
   action 9 1%nat lone_bodyguard = Err AttributeError)
  ∧ (∀ r, action 9 1%nat lone_bodyguard = Ok r →
       is_Some (Insect.ant (Insect.mk BodyguardAnt 2 (Some 2%nat) 0 Method 0 None [] false))).
Proof.
  apply (C9_bodyguard_action_needs_contained_ant 9 lone_bodyguard 1%nat);
    vm_compute; reflexivity.
Defined.

(** ** C7: the food budget and [deploy_ant] *)

Lemma keeps_food_construct t : keeps food (construct t).
Proof.
  unfold construct. apply keeps_bind.
  - intros s a s'. unfold new_insect. intros [= _ <-]. done.
  - intros r. apply keeps_bind; [|intros; apply keeps_ret].
    destruct t; try apply keeps_ret.
    apply keeps_bind; [apply keeps_get|]. intros s. case_bool_decide.
    + apply keeps_bind; [by apply keeps_modify|]. intros _.
      apply keeps_upd_insect, _.
    + apply keeps_ret.
Qed.



(** ** Running computations on symbolic states *)

Ltac munfold :=
  unfold mbind, M_bind, mret, M_ret, get, modify, deref, raise, get_insect,
    get_place, upd_insect, upd_place, print, contain_ant.

Ltac mrun := repeat (munfold; simpl).

(** ** C5: a bodyguard shelters the ant of its place and gives it back *)

(** C5 (amended).  On a place that is not [Water], where a non-container ant
    [a] is the visible occupant, adding a bodyguard [b] with an empty slot
    makes [b] the one visible occupant with [a] in its slot; removing [b]
    afterwards makes [a] the visible occupant of the same place again. *)
Theorem C5_containment_roundtrip (s : State) (p : loc) (pl : Place.t)
    (a b : ref) (ia ib : Insect.t) :
  place_store s !! p = Some pl →
  Place.ant pl = Some a →
  insect_store s !! a = Some ia →
  insect_store s !! b = Some ib →
  container (Insect.type ia) = false →
  container (Insect.type ib) = true →
  Insect.ant ib = None →
  Place.type pl ≠ TWater →
  shelters_and_restores s p a b.
Proof.
  intros Hp Hant Ha Hb Hca Hcb Hslot Hw.
  assert (a ≠ b) as Hab by (intros ->; congruence).
  assert (is_ant (Insect.type ib) = true) as Hisant
    by (by destruct (Insect.type ib)).
  assert (add_insect p b s
          = Ok (tt, set_insect_store
                      (alter (Insect.set_place (Some p)) b
                         (alter (Insect.set_ant (Some a)) b (insect_store s)))
                      (set_place_store
                         (alter (Place.set_ant (Some b)) p (place_store s)) s)))
    as Hadd.
  { unfold add_insect, Water_add_insect, Place_add_insect, can_contain. mrun.
    rewrite Hp. simpl.
    destruct (Place.type pl) eqn:E; try done;
      rewrite Hb; simpl; rewrite Hisant, Hp; simpl; rewrite Hant, Ha; simpl;
      rewrite Hca, Hcb, Hslot; simpl; reflexivity. }
  eexists _, _. split; [exact Hadd|].
  unfold visible_ant, sheltered_ant, place_of. simpl.
  rewrite !lookup_alter_eq, Hp, Hb. simpl.
  split; [done|]. split; [done|].
  split.
  { unfold Place_remove_insect. mrun.
    rewrite !lookup_alter_eq, Hb. simpl. rewrite lookup_alter_eq, Hp. simpl.
    rewrite Hisant. simpl. rewrite bool_decide_eq_true_2 by done.
    rewrite Hcb. simpl. reflexivity. }
  simpl. rewrite !lookup_alter_eq, Hp. simpl. split; [done|].
  rewrite lookup_alter_ne by done. rewrite lookup_alter_eq.
  rewrite !lookup_alter_ne by done. rewrite Ha. done.
Qed.

Lemma C5_witness : shelters_and_restores thrower_in_tunnel 5%nat 1%nat 2%nat.
Proof.
  apply (C5_containment_roundtrip thrower_in_tunnel 5%nat
           (Place.mk "tunnel_0_3" TPlace (Some 4%nat) [] (Some 1%nat) (Some 6%nat))
           1%nat 2%nat
           (Insect.mk ThrowerAnt 1 (Some 5%nat) 1 Method 0 None [] false)
           (Insect.mk BodyguardAnt 2 None 0 Method 0 None [] false));
    vm_compute; (reflexivity || discriminate).
Defined.

Example scuba_on_water_add_bodyguard :
  visible_ant (state_of (add_insect 4%nat 2%nat) scuba_on_water) 4%nat
  = Some 1%nat.
Proof. vm_compute. reflexivity. Qed.

(** C5 as stated fails on water: the scuba thrower [1] stands on the water
    place [4]; the bodyguard [2] added there drowns at once, so the visible
    occupant is the scuba thrower and not the bodyguard. *)
Lemma C5_counterexample_water :
  (place_store scuba_on_water !! 4%nat
   = Some (Place.mk "water_0_2" TWater (Some 3%nat) [] (Some 1%nat) (Some 5%nat))
   ∧ insect_store scuba_on_water !! 1%nat
     = Some (Insect.mk ScubaThrower 1 (Some 4%nat) 1 Method 0 None [] false)
   ∧ insect_store scuba_on_water !! 2%nat
     = Some (Insect.mk BodyguardAnt 2 None 0 Method 0 None [] false))
  ∧ ¬ shelters_and_restores scuba_on_water 4%nat 1%nat 2%nat.
Proof.
  split.
  - repeat apply conj; vm_compute; reflexivity.
  - intros (s1 & s2 & Hadd & Hvis & _).
    apply state_of_Ok in Hadd. subst s1.
    rewrite scuba_on_water_add_bodyguard in Hvis. discriminate.
Qed.

(** ** What the actions leave alone *)

Ltac keeps_auto :=
  repeat first
    [ apply keeps_upd_insect | apply keeps_upd_place | apply keeps_print
    | apply keeps_random_or_none | apply keeps_random_choice
    | apply keeps_Place_remove_insect | apply keeps_reduce_armor
    | apply keeps_add_insect | apply keeps_Place_add_insect
    | keeps_step ]; try done.

Section Keeps_actions.
Context {X : Type} (fld : State → X) `{!Colony_attr fld}.

Lemma keeps_nearest_bee_loop n i hive place distance :
  keeps fld (nearest_bee_loop n i hive place distance).
Proof.
  revert place distance. induction n as [|n IH]; intros place distance;
    simpl; keeps_auto.
Qed.

Lemma keeps_nearest_bee gas self hive : keeps fld (nearest_bee gas self hive).
Proof. unfold nearest_bee. keeps_auto. apply keeps_nearest_bee_loop. Qed.

Lemma keeps_throw_at self target : keeps fld (throw_at self target).
Proof.
  unfold throw_at, SlowThrower_throw_at, StunThrower_throw_at,
    ThrowerAnt_throw_at, apply_effect.
  keeps_auto.
Qed.

Lemma keeps_visit_tunnel_place pl ants : keeps fld (visit_tunnel_place pl ants).
Proof. unfold visit_tunnel_place, double_damage. keeps_auto. Qed.

Lemma keeps_tunnel_walk n next cur ants : keeps fld (tunnel_walk n next cur ants).
Proof.
  revert cur ants. induction n as [|n IH]; intros cur ants; simpl; keeps_auto.
  apply keeps_visit_tunnel_place.
Qed.

Lemma keeps_ants_in_same_tunnel gas self ants :
  keeps fld (QueenAnt_ants_in_same_tunnel gas self ants).
Proof.
  unfold QueenAnt_ants_in_same_tunnel, double_damage. keeps_auto;
    apply keeps_tunnel_walk.
Qed.

End Keeps_actions.

(** ** C10: the queen's place counts for the loss of the game *)

Lemma QueenAnt_action_queen gas (q : ref) (iq : Insect.t) (p : loc) s u s' :
  insect_store s !! q = Some iq →
  Insect.true_queen iq = true →
  Insect.place iq = Some p →
  QueenAnt_action gas q s = Ok (u, s') →
  queen s' = QueenPlace (queen s) p.
Proof.
  intros Hq Htq Hp. unfold QueenAnt_action.
  rewrite (bind_Ok _ _ _ _ _ (get_insect_Ok _ _ _ Hq)), Htq, Hp. simpl.
  intros H. apply bind_inv_Ok in H as (? & s0 & [= <- <-] & H).
  apply bind_inv_Ok in H as (? & s1 & [= _ <-] & H).
  assert (keeps queen
    (s ← get;
     target ← nearest_bee gas q (hive s);
     throw_at q target ;;
     i ← get_insect q;
     ants ← QueenAnt_ants_in_same_tunnel gas q (Insect.double_dmg_ants i);
     upd_insect q (Insect.set_double_dmg_ants ants))) as Hk.
  { repeat first
      [ apply keeps_nearest_bee | apply keeps_throw_at
      | apply keeps_ants_in_same_tunnel | apply keeps_upd_insect
      | keeps_step ]; apply _. }
  apply Hk in H. rewrite H. done.
Qed.

Lemma queen_bees_Ok (q : QueenRef) (s : State) :
  (∀ p, p ∈ queen_places q → is_Some (place_store s !! p)) →
  ∃ qb, queen_bees q s = Ok (qb, s)
        ∧ ∀ p pl b, p ∈ queen_places q → place_store s !! p = Some pl →
                    b ∈ Place.bees pl → b ∈ qb.
Proof.
  induction q as [p|cq IH aq]; simpl; intros Hall.
  - destruct (Hall p) as [pl Hpl]; [set_solver|].
    exists (Place.bees pl). rewrite (bind_Ok _ _ _ _ _ (get_place_Ok _ _ _ Hpl)).
    split; [done|]. intros p' pl' b Hin Hpl' Hb.
    apply list_elem_of_singleton in Hin as ->. congruence.
  - destruct IH as (l1 & H1 & Hl1); [intros; apply Hall; set_solver|].
    destruct (Hall aq) as [pl Hpl]; [set_solver|].
    exists (l1 ++ Place.bees pl).
    rewrite (bind_Ok _ _ _ _ _ H1), (bind_Ok _ _ _ _ _ (get_place_Ok _ _ _ Hpl)).
    split; [done|]. intros p' pl' b Hin Hpl' Hb.
    apply elem_of_app in Hin as [Hin|Hin]; apply elem_of_app.
    + left. eauto.
    + right. apply list_elem_of_singleton in Hin as ->. congruence.
Qed.

(** C10.  The action of the true queen standing at [p] replaces
    [colony.queen] by a [QueenPlace] over its old value and [p].  From then
    on, in any state [s2] with that [colony.queen], a bee in [p] or in a place
    the old value covered makes [simulate] leave its loop at once (whatever
    fuel it has) and print that the queen has perished. *)
Theorem C10_queen_place_loses (gas : nat) (s s1 : State) (q : ref)
    (iq : Insect.t) (p : loc) :
  insect_store s !! q = Some iq →
  Insect.type iq = QueenAnt →
  Insect.true_queen iq = true →
  Insect.place iq = Some p →
  Insect.action iq = Method →
  action gas q s = Ok (tt, s1) →
  queen s1 = QueenPlace (queen s) p
  ∧ queen_places (queen s1) = queen_places (queen s) ++ [p]
  ∧ ∀ (fuel : nat) (strategy : M unit) (calls : nat) (s2 : State)
      (p' : loc) (pl' : Place.t),
      queen s2 = queen s1 →
      (∀ x, x ∈ queen_places (queen s2) → is_Some (place_store s2 !! x)) →
      p' ∈ queen_places (queen s) ++ [p] →
      place_store s2 !! p' = Some pl' →
      Place.bees pl' ≠ [] →
      simulate_loop gas fuel strategy calls s2
      = Ok ((LOST, calls), set_stdout (stdout s2 ++ [Perished]) s2).
Proof.
  intros Hq Hty Htq Hp Hact Hrun.
  assert (queen s1 = QueenPlace (queen s) p) as Hqueen.
  { unfold action in Hrun.
    assert (∃ u s', QueenAnt_action gas q s = Ok (u, s') ∧ queen s1 = queen s')
      as (u & s' & HQ & ->).
    { destruct gas as [|n]; simpl in Hrun;
        rewrite (bind_Ok _ _ _ _ _ (get_insect_Ok _ _ _ Hq)), Hact, Hty in Hrun;
        simpl in Hrun;
        apply bind_inv_Ok in Hrun as (a & s' & Hc & Hu);
        apply bind_inv_Ok in Hc as (u & s'' & HQ & [= _ <-]);
        injection Hu as <-; eauto. }
    eapply QueenAnt_action_queen; eauto. }
  split; [done|]. split; [by rewrite Hqueen|].
  intros fuel strategy calls s2 p' pl' Hq2 Hall Hin Hpl' Hbees.
  destruct (queen_bees_Ok (queen s2) s2 Hall) as (qb & Hqb & Hcover).
  assert (qb ≠ []) as Hne.
  { destruct (Place.bees pl') as [|b l] eqn:E; [done|].
    assert (b ∈ qb) as Hb.
    { apply (Hcover p' pl' b); [|done|rewrite E; left].
      rewrite Hq2, Hqueen. done. }
    intros ->. inversion Hb. }
  assert (running s2 = Ok (false, s2)) as Hrunning.
  { unfold running. mrun. unfold mbind, M_bind in Hqb. rewrite Hqb.
    rewrite bool_decide_eq_false_2; [done|]. by destruct qb. }
  assert (0 < length qb)%nat by (destruct qb; [done|simpl; lia]).
  destruct fuel; simpl; rewrite (bind_Ok _ _ _ _ _ Hrunning); mrun;
    unfold mbind, M_bind in Hqb; rewrite Hqb;
    rewrite bool_decide_eq_true_2 by done; reflexivity.
Qed.

Lemma C10_witness :
  queen (state_of (action 9 1%nat) queen_in_tunnel)
  = QueenPlace (queen queen_in_tunnel) 2%nat
  ∧ queen_places (queen (state_of (action 9 1%nat) queen_in_tunnel))
    = queen_places (queen queen_in_tunnel) ++ [2%nat]
  ∧ ∀ (fuel : nat) (strategy : M unit) (calls : nat) (s2 : State)
      (p' : loc) (pl' : Place.t),
      queen s2 = queen (state_of (action 9 1%nat) queen_in_tunnel) →
      (∀ x, x ∈ queen_places (queen s2) → is_Some (place_store s2 !! x)) →
      p' ∈ queen_places (queen queen_in_tunnel) ++ [2%nat] →
      place_store s2 !! p' = Some pl' →
      Place.bees pl' ≠ [] →
      simulate_loop 9 fuel strategy calls s2
      = Ok ((LOST, calls), set_stdout (stdout s2 ++ [Perished]) s2).
Proof.
  apply (C10_queen_place_loses 9 queen_in_tunnel
           (state_of (action 9 1%nat) queen_in_tunnel) 1%nat
           (Insect.mk QueenAnt 1 (Some 2%nat) 1 Method 0 None [] true) 2%nat);
    vm_compute; reflexivity.
Defined.

(** ** C4: a status effect lasts for [duration] calls *)

Lemma bind_assoc {A B C} (m : M A) (f : A → M B) (g : B → M C) s :
  ((m ≫= f) ≫= g) s = (m ≫= λ a, f a ≫= g) s.
Proof. unfold mbind, M_bind. by destruct (m s) as [[a s']|e]. Qed.

Lemma bind_ext {A B} (m : M A) (f g : A → M B) s :
  (∀ a s', f a s' = g a s') → (m ≫= f) s = (m ≫= g) s.
Proof. intros H. unfold mbind, M_bind. by destruct (m s) as [[a s']|e]. Qed.

Lemma bind_ret_l {A B} (a : A) (f : A → M B) s : (mret a ≫= f) s = f a s.
Proof. done. Qed.

(** What [apply_effect] installs, and that calling the insect's action is
    calling that closure and storing its cells back. *)
Lemma apply_effect_installs effect (bee : ref) duration s i :
  insect_store s !! bee = Some i →
  ∃ s', apply_effect effect bee duration s = Ok (tt, s')
        ∧ insect_store s' !! bee
          = Some (Insect.set_action
                    (after_effect effect duration (Insect.action i)) i).
Proof.
  intros Hi. eexists. split; [reflexivity|]. simpl.
  by rewrite lookup_alter_eq, Hi.
Qed.

Lemma call_after_effect method effect duration original :
  call method (after_effect effect duration original)
  = if bool_decide (duration > 0) then
      orig ← apply_Effect effect (call method original) original;
      mret (after_effect effect (duration - 1) orig)
    else
      orig ← call method original;
      mret (after_effect effect duration orig).
Proof. done. Qed.

Lemma ret_duration effect (d d' : Z) (a : Action) (s : State) :
  d = d' →
  (mret (after_effect effect d a) : M Action) s
  = (mret (after_effect effect d' a) : M Action) s.
Proof. by intros ->. Qed.


(** ** C2: the queen doubles a sheltered ant a second time *)

(** C2 fails on the code.  The thrower [1] is deployed next to the true
    queen [2] and doubled in the first turn (damage 1 to 2).  In the second
    turn a bodyguard [3] is deployed over it; the queen finds the bodyguard,
    which is not in her list, and doubles the ant it holds without looking
    that ant up in the list: the thrower's damage is 4, and it is in the
    list twice. *)
Theorem C2_sheltered_ant_doubled_twice :
  cycle 9 guard_the_thrower (one_tunnel 20) = Ok (1%nat, guarded_turn_1)
  ∧ cycle 9 guard_the_thrower guarded_turn_1 = Ok (1%nat, guarded_turn_2)
  ∧ Insect.type <$> insect_store guarded_turn_2 !! 1%nat = Some ThrowerAnt
  ∧ cls_damage ThrowerAnt = 1
  ∧ damage_of guarded_turn_1 1%nat = Some 2
  ∧ damage_of guarded_turn_2 1%nat = Some 4
  ∧ Insect.double_dmg_ants <$> insect_store guarded_turn_2 !! 2%nat
    = Some [1%nat; 1%nat; 3%nat].
Proof. repeat apply conj; vm_compute; reflexivity. Qed.

(** ** More gas and more fuel do not change a result *)

Lemma refines_refl {A} (m : M A) : refines m m.
Proof. by intros s r. Qed.

Lemma refines_raise {A} e (m : M A) : refines (raise e) m.
Proof. intros s r [=]. Qed.

Lemma refines_bind {A B} (m m' : M A) (f f' : A → M B) :
  refines m m' → (∀ a, refines (f a) (f' a)) → refines (m ≫= f) (m' ≫= f').
Proof.
  intros Hm Hf s r H. unfold mbind, M_bind in *.
  destruct (m s) as [[a s1]|e] eqn:E; [|done].
  rewrite (Hm _ _ E). by apply Hf.
Qed.

Ltac refines_step :=
  first
    [ apply refines_refl
    | apply refines_raise
    | match goal with
      | |- refines (match ?x with _ => _ end) _ => destruct x
      end
    | apply refines_bind; [|intros ?] ].

Lemma nearest_bee_loop_mono (n n' : nat) i hive place distance :
  (n ≤ n')%nat →
  refines (nearest_bee_loop n i hive place distance)
          (nearest_bee_loop n' i hive place distance).
Proof.
  revert n' place distance. induction n as [|n IH]; intros n' place distance Hn;
    destruct place as [p|]; simpl.
  - destruct n'; simpl; repeat refines_step.
  - destruct n'; apply refines_refl.
  - destruct n' as [|n']; [lia|]. simpl. case_bool_decide; [apply refines_refl|].
    apply refines_bind; [apply refines_refl|]. intros pl.
    apply refines_bind; [apply refines_refl|]. intros bee.
    destruct (_ && _); [apply refines_refl|]. apply IH. lia.
  - destruct n'; apply refines_refl.
Qed.

Lemma tunnel_walk_mono (n n' : nat) next cur ants :
  (n ≤ n')%nat →
  refines (tunnel_walk n next cur ants) (tunnel_walk n' next cur ants).
Proof.
  revert n' cur ants. induction n as [|n IH]; intros n' cur ants Hn;
    destruct cur as [p|]; simpl.
  - apply refines_raise.
  - destruct n'; apply refines_refl.
  - destruct n' as [|n']; [lia|]. simpl.
    apply refines_bind; [apply refines_refl|]. intros pl.
    apply refines_bind; [apply refines_refl|]. intros ants'.
    apply refines_bind; [apply refines_refl|]. intros pl'.
    apply IH. lia.
  - destruct n'; apply refines_refl.
Qed.

Lemma nearest_bee_mono (gas gas' : nat) self hive :
  (gas ≤ gas')%nat →
  refines (nearest_bee gas self hive) (nearest_bee gas' self hive).
Proof.
  intros. unfold nearest_bee. apply refines_bind; [apply refines_refl|].
  intros i. by apply nearest_bee_loop_mono.
Qed.

Lemma ThrowerAnt_action_mono (gas gas' : nat) self :
  (gas ≤ gas')%nat →
  refines (ThrowerAnt_action gas self) (ThrowerAnt_action gas' self).
Proof.
  intros. unfold ThrowerAnt_action. apply refines_bind; [apply refines_refl|].
  intros s. apply refines_bind; [by apply nearest_bee_mono|].
  intros. apply refines_refl.
Qed.

Lemma QueenAnt_action_mono (gas gas' : nat) self :
  (gas ≤ gas')%nat →
  refines (QueenAnt_action gas self) (QueenAnt_action gas' self).
Proof.
  intros. unfold QueenAnt_action. apply refines_bind; [apply refines_refl|].
  intros i. destruct (negb _); [apply refines_refl|].
  apply refines_bind; [apply refines_refl|]. intros p.
  apply refines_bind; [apply refines_refl|]. intros _.
  apply refines_bind; [apply refines_refl|]. intros s.
  apply refines_bind; [by apply nearest_bee_mono|]. intros target.
  apply refines_bind; [apply refines_refl|]. intros _.
  apply refines_bind; [apply refines_refl|]. intros i'.
  apply refines_bind; [|intros; apply refines_refl].
  unfold QueenAnt_ants_in_same_tunnel.
  apply refines_bind; [apply refines_refl|]. intros i''.
  apply refines_bind; [apply refines_refl|]. intros cur.
  apply refines_bind; [apply refines_refl|]. intros cpl.
  apply refines_bind; [apply refines_refl|]. intros a.
  apply refines_bind; [apply refines_refl|]. intros ai.
  apply refines_bind; [apply refines_refl|]. intros ants.
  apply refines_bind; [by apply tunnel_walk_mono|]. intros ants'.
  by apply tunnel_walk_mono.
Qed.

Lemma method_action_mono (gas gas' : nat) (d d' : ref → M unit) t self :
  (gas ≤ gas')%nat → (∀ a, refines (d a) (d' a)) →
  refines (method_action gas d t self) (method_action gas' d' t self).
Proof.
  intros Hg Hd. destruct t; simpl;
    first [ by apply ThrowerAnt_action_mono | by apply QueenAnt_action_mono
          | apply refines_refl | idtac ].
  apply refines_bind; [apply refines_refl|]. intros i.
  apply refines_bind; [apply refines_refl|]. intros a. apply Hd.
Qed.

Lemma apply_Effect_mono effect (act act' : M Action) idle :
  refines act act' →
  refines (apply_Effect effect act idle) (apply_Effect effect act' idle).
Proof.
  intros H. destruct effect; simpl; [|apply refines_refl].
  apply refines_bind; [apply refines_refl|]. intros s.
  by case_bool_decide; [|apply refines_refl].
Qed.

Lemma call_mono (method method' : M unit) a :
  refines method method' → refines (call method a) (call method' a).
Proof.
  intros H. induction a as [|effect duration a IH]; simpl.
  - apply refines_bind; [done|]. intros; apply refines_refl.
  - case_bool_decide.
    + apply refines_bind; [by apply apply_Effect_mono|].
      intros; apply refines_refl.
    + apply refines_bind; [done|]. intros; apply refines_refl.
Qed.

Lemma Insect_action_mono (gas gas' n n' : nat) insect :
  (gas ≤ gas')%nat → (n ≤ n')%nat →
  refines (Insect_action gas n insect) (Insect_action gas' n' insect).
Proof.
  intros Hg. revert n' insect. induction n as [|n IH]; intros n' insect Hn;
    destruct n' as [|n']; try lia; simpl;
    (apply refines_bind; [apply refines_refl|]; intros i;
     apply refines_bind; [|intros; apply refines_refl];
     apply call_mono, method_action_mono; [done|]; intros a).
  - apply refines_refl.
  - apply refines_raise.
  - apply IH. lia.
Qed.

Lemma take_actions_mono (gas gas' : nat) l :
  (gas ≤ gas')%nat → refines (take_actions gas l) (take_actions gas' l).
Proof.
  intros Hg. induction l as [|x l IH]; simpl; [apply refines_refl|].
  apply refines_bind; [apply refines_refl|]. intros i.
  case_bool_decide; [|done].
  apply refines_bind; [by apply Insect_action_mono|]. intros _.
  apply refines_bind; [done|]. intros; apply refines_refl.
Qed.

Lemma cycle_mono (gas gas' : nat) strategy :
  (gas ≤ gas')%nat → refines (cycle gas strategy) (cycle gas' strategy).
Proof.
  intros Hg. unfold cycle.
  apply refines_bind; [apply refines_refl|]. intros s.
  apply refines_bind; [apply refines_refl|]. intros _.
  apply refines_bind; [apply refines_refl|]. intros _.
  apply refines_bind; [apply refines_refl|]. intros l.
  apply refines_bind; [by apply take_actions_mono|]. intros _.
  apply refines_bind; [apply refines_refl|]. intros l'.
  apply refines_bind; [by apply take_actions_mono|]. intros k.
  apply refines_refl.
Qed.

Lemma simulate_loop_mono (gas gas' fuel fuel' : nat) strategy calls :
  (gas ≤ gas')%nat → (fuel ≤ fuel')%nat →
  refines (simulate_loop gas fuel strategy calls)
          (simulate_loop gas' fuel' strategy calls).
Proof.
  intros Hg. revert fuel' calls.
  induction fuel as [|fuel IH]; intros fuel' calls Hf;
    destruct fuel' as [|fuel']; try lia; simpl;
    (apply refines_bind; [apply refines_refl|]; intros go;
     destruct go; [|apply refines_refl]).
  - apply refines_refl.
  - apply refines_raise.
  - apply refines_bind; [by apply cycle_mono|]. intros k. apply IH. lia.
Qed.

(** ** C3: one thrower against one bee *)

Lemma value_of_Some {A} (m : M A) s a :
  value_of m s = Some a → m s = Ok (a, state_of m s).
Proof.
  unfold value_of, state_of. destruct (m s) as [[a' s']|e]; [|done].
  by intros [= ->].
Qed.

Example one_thrower_game :
  Forall (λ pn,
    value_of (simulate 9 5 (thrower_at pn)) (one_tunnel 10) = Some (WON, 4%nat)
    ∧ time (state_of (simulate 9 5 (thrower_at pn)) (one_tunnel 10)) = 5
    ∧ stdout (state_of (simulate 9 5 (thrower_at pn)) (one_tunnel 10))
      = [Expired 0%nat; Vanquished])
    sheltered_places.
Proof.
  repeat (apply List.Forall_cons; [repeat apply conj; vm_compute; reflexivity|]).
  apply List.Forall_nil.
Qed.




(** ** C1: an insect out of armor leaves its place *)

Lemma list_remove_Some (x : ref) l : x ∈ l → is_Some (list_remove x l).
Proof.
  induction l as [|y l IH]; [by intros ?%elem_of_nil|].
  intros Hin. simpl. case_decide; [eauto|].
  apply elem_of_cons in Hin as [->|Hin]; [done|].
  destruct (IH Hin) as [l' ->]. simpl. eauto.
Qed.

Lemma list_remove_subseteq (x : ref) l l' y :
  list_remove x l = Some l' → y ∈ l' → y ∈ l.
Proof.
  revert l'. induction l as [|z l IH]; intros l'; [done|]. simpl.
  case_decide.
  - intros [= ->] Hy. by right.
  - destruct (list_remove x l) as [l0|] eqn:E; [|done]. simpl.
    intros [= <-] Hy. apply elem_of_cons in Hy as [->|Hy]; [left|right; eauto].
Qed.

Lemma list_remove_other (x : ref) l l' y :
  list_remove x l = Some l' → y ≠ x → y ∈ l → y ∈ l'.
Proof.
  revert l'. induction l as [|z l IH]; intros l'; [done|]. simpl.
  case_decide.
  - intros [= ->] Hne Hy. apply elem_of_cons in Hy as [->|Hy]; [congruence|done].
  - destruct (list_remove x l) as [l0|] eqn:E; [|done]. simpl.
    intros [= <-] Hne Hy. apply elem_of_cons in Hy as [->|Hy]; [left|right; eauto].
Qed.

Lemma list_remove_NoDup (x : ref) l l' :
  NoDup l → list_remove x l = Some l' → (x ∉ l') ∧ NoDup l'.
Proof.
  revert l'. induction l as [|z l IH]; intros l' Hnd; [done|]. simpl.
  apply NoDup_cons in Hnd as [Hz Hnd]. case_decide.
  - intros [= ->]. by subst.
  - destruct (list_remove x l) as [l0|] eqn:E; [|done]. simpl.
    intros [= <-]. destruct (IH l0 Hnd eq_refl) as [Hx Hnd0]. split.
    + intros [->|?]%elem_of_cons; done.
    + apply NoDup_cons. split; [|done].
      intros Hz'. apply Hz. eapply list_remove_subseteq; eauto.
Qed.

(** What [consistent] says, place by place and insect by insect. *)
Lemma consistent_place s p pl :
  consistent s = true → place_store s !! p = Some pl →
  NoDup (Place.bees pl)
  ∧ (∀ b, b ∈ Place.bees pl →
       ∃ ib, insect_store s !! b = Some ib
             ∧ is_ant (Insect.type ib) = false ∧ Insect.place ib = Some p)
  ∧ (∀ a, Place.ant pl = Some a →
       ∃ ia, insect_store s !! a = Some ia
             ∧ is_ant (Insect.type ia) = true ∧ Insect.place ia = Some p).
Proof.
  unfold consistent. intros [H _]%andb_prop Hp.
  rewrite forallb_forall in H.
  specialize (H (p, pl)). simpl in H. unfold place_ok in H.
  rewrite <- list_elem_of_In, elem_of_map_to_list in H.
  specialize (H Hp).
  apply andb_prop in H as [H Hant]. apply andb_prop in H as [Hnd Hbees].
  split; [by apply bool_decide_eq_true_1 in Hnd|]. split.
  - intros b Hb. rewrite forallb_forall in Hbees.
    apply list_elem_of_In, Hbees in Hb. unfold bee_ok in Hb.
    destruct (insect_store s !! b) as [ib|]; [|done].
    apply andb_prop in Hb as [Ht Hpl]. exists ib.
    split; [done|]. split; [by destruct (is_ant _)|].
    by apply bool_decide_eq_true_1 in Hpl.
  - intros a Ha. rewrite Ha in Hant. unfold ant_ok in Hant.
    destruct (insect_store s !! a) as [ia|]; [|done].
    apply andb_prop in Hant as [Ht Hpl]. exists ia.
    split; [done|]. split; [done|]. by apply bool_decide_eq_true_1 in Hpl.
Qed.

Lemma consistent_slot s r i a :
  consistent s = true → insect_store s !! r = Some i → Insect.ant i = Some a →
  ∃ ia, insect_store s !! a = Some ia
        ∧ is_ant (Insect.type ia) = true ∧ container (Insect.type ia) = false.
Proof.
  unfold consistent. intros [_ H]%andb_prop Hr Ha.
  rewrite forallb_forall in H.
  specialize (H (r, i)). simpl in H. unfold slot_ok in H.
  rewrite <- list_elem_of_In, elem_of_map_to_list in H.
  specialize (H Hr). rewrite Ha in H.
  destruct (insect_store s !! a) as [ia|]; [|done].
  apply andb_prop in H as [H1 H2]. exists ia.
  split; [done|]. split; [done|]. by destruct (container _).
Qed.

Lemma Insect_reduce_armor_out s u iu p amount :
  insect_store s !! u = Some iu → Insect.place iu = Some p →
  Insect.armor iu - amount ≤ 0 →
  Insect_reduce_armor u amount s
  = Place_remove_insect p u
      (set_stdout (stdout s ++ [Expired u]) (damaged s u amount)).
Proof.
  intros Hu Hp Ha. unfold Insect_reduce_armor. mrun.
  rewrite lookup_alter_eq, Hu. simpl.
  rewrite bool_decide_eq_true_2 by done. rewrite Hp. reflexivity.
Qed.

Lemma Insect_reduce_armor_alive s u iu amount :
  insect_store s !! u = Some iu → ¬ Insect.armor iu - amount ≤ 0 →
  Insect_reduce_armor u amount s = Ok (tt, damaged s u amount).
Proof.
  intros Hu Ha. unfold Insect_reduce_armor. mrun.
  rewrite lookup_alter_eq, Hu. simpl.
  rewrite bool_decide_eq_false_2 by done. reflexivity.
Qed.

Lemma Place_remove_insect_bee s b ib p pl bs :
  insect_store s !! b = Some ib → is_ant (Insect.type ib) = false →
  place_store s !! p = Some pl → list_remove b (Place.bees pl) = Some bs →
  Place_remove_insect p b s
  = Ok (tt, set_insect_store (alter (Insect.set_place None) b (insect_store s))
              (set_place_store (alter (Place.set_bees bs) p (place_store s)) s)).
Proof.
  intros Hb Ht Hp Hbs. unfold Place_remove_insect. mrun.
  rewrite Hb, Hp. simpl. rewrite Ht. simpl. rewrite Hbs. reflexivity.
Qed.

Lemma Place_remove_insect_ant s a ia p pl :
  insect_store s !! a = Some ia → is_ant (Insect.type ia) = true →
  place_store s !! p = Some pl → Place.ant pl = Some a →
  container (Insect.type ia) = false →
  bool_decide (Insect.type ia = QueenAnt) && Insect.true_queen ia = false →
  Place_remove_insect p a s
  = Ok (tt, set_insect_store (alter (Insect.set_place None) a (insect_store s))
              (set_place_store (alter (Place.set_ant None) p (place_store s)) s)).
Proof.
  intros Ha Ht Hp Hant Hc Hq. unfold Place_remove_insect. mrun.
  rewrite Ha, Hp. simpl. rewrite Ht. simpl.
  rewrite bool_decide_eq_true_2 by done. rewrite Hc, Hq. reflexivity.
Qed.

Lemma Place_remove_insect_queen s a ia p pl :
  insect_store s !! a = Some ia → Insect.type ia = QueenAnt →
  Insect.true_queen ia = true →
  place_store s !! p = Some pl → Place.ant pl = Some a →
  Place_remove_insect p a s = Ok (tt, s).
Proof.
  intros Ha Ht Hq Hp Hant. unfold Place_remove_insect. mrun.
  rewrite Ha, Hp. simpl. rewrite Ht. simpl.
  rewrite bool_decide_eq_true_2 by done. rewrite Hq. reflexivity.
Qed.

Lemma Place_remove_insect_bodyguard s b ib p pl a :
  insect_store s !! b = Some ib → container (Insect.type ib) = true →
  place_store s !! p = Some pl → Place.ant pl = Some b →
  Insect.ant ib = Some a →
  Place_remove_insect p b s
  = Ok (tt, set_insect_store
              (alter (Insect.set_place None) b
                 (alter (Insect.set_place (Some p)) a (insect_store s)))
              (set_place_store
                 (alter (Place.set_ant (Some a)) p (place_store s)) s)).
Proof.
  intros Hb Hc Hp Hant Ha. unfold Place_remove_insect. mrun.
  rewrite Hb, Hp. simpl.
  assert (is_ant (Insect.type ib) = true) as -> by (by destruct (Insect.type ib)).
  simpl. rewrite bool_decide_eq_true_2 by done. rewrite Hc, Ha. reflexivity.
Qed.

Lemma consistent_only_at s u iu p :
  consistent s = true → insect_store s !! u = Some iu →
  Insect.place iu = Some p → only_at s u iu p.
Proof.
  intros Hc Hu Hp q ql Hq.
  destruct (consistent_place s q ql Hc Hq) as (_ & Hbees & Hant). split.
  - intros Hin. destruct (Hbees u Hin) as (ib & Hib & Ht & Hpl).
    rewrite Hu in Hib. injection Hib as <-. split; congruence.
  - intros Ha. destruct (Hant u Ha) as (ia & Hia & Ht & Hpl).
    rewrite Hu in Hia. injection Hia as <-. split; congruence.
Qed.

Lemma Place_remove_insect_gone t u iu p pl :
  insect_store t !! u = Some iu → place_store t !! p = Some pl →
  (if is_ant (Insect.type iu) then Place.ant pl = Some u
   else u ∈ Place.bees pl ∧ NoDup (Place.bees pl)) →
  only_at t u iu p →
  (container (Insect.type iu) = true → ∃ a, Insect.ant iu = Some a ∧ a ≠ u) →
  bool_decide (Insect.type iu = QueenAnt) && Insect.true_queen iu = false →
  ∃ t', Place_remove_insect p u t = Ok (tt, t') ∧ gone t' u.
Proof.
  intros Hu Hp Hocc Honly Hslot Hq.
  destruct (is_ant (Insect.type iu)) eqn:Hant.
  - destruct (container (Insect.type iu)) eqn:Hc.
    + destruct (Hslot eq_refl) as (a & Ha & Hne).
      eexists. split; [by eapply Place_remove_insect_bodyguard|].
      unfold gone, place_of. simpl. split.
      { by rewrite lookup_alter_eq, lookup_alter_ne, Hu. }
      intros q ql Hql. destruct (decide (q = p)) as [->|Hqp].
      * rewrite lookup_alter_eq, Hp in Hql. injection Hql as <-. simpl.
        split; [|congruence].
        intros Hin. destruct (Honly p pl Hp) as [H1 _].
        destruct (H1 Hin) as [_ ?]. congruence.
      * rewrite lookup_alter_ne in Hql by done.
        destruct (Honly q ql Hql) as [H1 H2]. split.
        -- intros Hin. by destruct (H1 Hin).
        -- intros Heq. by destruct (H2 Heq).
    + eexists. split; [by eapply Place_remove_insect_ant|].
      unfold gone, place_of. simpl. split.
      { by rewrite lookup_alter_eq, Hu. }
      intros q ql Hql. destruct (decide (q = p)) as [->|Hqp].
      * rewrite lookup_alter_eq, Hp in Hql. injection Hql as <-. simpl.
        split; [|done].
        intros Hin. destruct (Honly p pl Hp) as [H1 _].
        destruct (H1 Hin) as [_ ?]. congruence.
      * rewrite lookup_alter_ne in Hql by done.
        destruct (Honly q ql Hql) as [H1 H2]. split.
        -- intros Hin. by destruct (H1 Hin).
        -- intros Heq. by destruct (H2 Heq).
  - destruct Hocc as [Hin Hnd].
    destruct (list_remove_Some u _ Hin) as [bs Hbs].
    eexists. split; [by eapply Place_remove_insect_bee|].
    unfold gone, place_of. simpl. split.
    { by rewrite lookup_alter_eq, Hu. }
    intros q ql Hql. destruct (decide (q = p)) as [->|Hqp].
    * rewrite lookup_alter_eq, Hp in Hql. injection Hql as <-. simpl.
      split; [by apply (list_remove_NoDup u _ _ Hnd Hbs)|].
      intros Heq. destruct (Honly p pl Hp) as [_ H2].
      destruct (H2 Heq) as [_ ?]. congruence.
    * rewrite lookup_alter_ne in Hql by done.
      destruct (Honly q ql Hql) as [H1 H2]. split.
      -- intros Hin'. by destruct (H1 Hin').
      -- intros Heq. by destruct (H2 Heq).
Qed.

(** The loop of [FireAnt.reduce_armor] over the bees of the place [p]. *)
Lemma burn_bees (dmg : Z) (p : loc) (l : list ref) :
  ∀ s pl,
    place_store s !! p = Some pl → NoDup l →
    (∀ b, b ∈ l →
       b ∈ Place.bees pl
       ∧ ∃ ib, insect_store s !! b = Some ib
               ∧ is_ant (Insect.type ib) = false ∧ Insect.place ib = Some p) →
    ∃ t pl',
      for_each l (λ bee, Insect_reduce_armor bee dmg) s = Ok (tt, t)
      ∧ place_store t !! p = Some pl'
      ∧ Place.ant pl' = Place.ant pl
      ∧ (∀ x, x ∈ Place.bees pl' → x ∈ Place.bees pl)
      ∧ (∀ q, q ≠ p → place_store t !! q = place_store s !! q)
      ∧ (∀ r, r ∉ l → insect_store t !! r = insect_store s !! r).
Proof.
  induction l as [|b l IH]; intros s pl Hp Hnd Hl.
  { exists s, pl. by repeat split. }
  apply NoDup_cons in Hnd as [Hbl Hnd].
  destruct (Hl b) as (Hin & ib & Hib & Ht & Hpl); [left|].
  destruct (decide (Insect.armor ib - dmg ≤ 0)) as [Hout|Halive].
  - destruct (list_remove_Some b _ Hin) as [bs Hbs].
    pose proof (Insect_reduce_armor_out s b ib p dmg Hib Hpl Hout) as Hstep.
    rewrite (Place_remove_insect_bee _ b
               (Insect.set_armor (Insect.armor ib - dmg) ib) p pl bs) in Hstep;
      [|by simpl; rewrite lookup_alter_eq, Hib|done|done|done].
    simpl in Hstep.
    match type of Hstep with _ = Ok (tt, ?x) => set (s2 := x) in * end.
    destruct (IH s2 (Place.set_bees bs pl)) as (t & pl' & Hrun & Hp' & Hant & Hsub & Hq & Hr).
    { subst s2. simpl. by rewrite lookup_alter_eq, Hp. }
    { done. }
    { intros b' Hb'. assert (b' ≠ b) as Hne by (intros ->; done).
      destruct (Hl b') as (Hin' & ib' & Hib' & Ht' & Hpl'); [by right|].
      split; [simpl; by eapply list_remove_other|].
      exists ib'. subst s2. simpl. by rewrite !lookup_alter_ne. }
    exists t, pl'. split; [simpl; by rewrite (bind_Ok _ _ _ _ _ Hstep)|].
    split; [done|]. split; [done|]. split.
    { intros x Hx. eapply list_remove_subseteq; [done|]. by apply Hsub. }
    split.
    { intros q Hne. rewrite Hq by done. subst s2. simpl. by rewrite lookup_alter_ne. }
    intros r Hnin. apply not_elem_of_cons in Hnin as [Hne Hnin].
    rewrite Hr by done. subst s2. simpl. by rewrite !lookup_alter_ne.
  - pose proof (Insect_reduce_armor_alive s b ib dmg Hib Halive) as Hstep.
    destruct (IH (damaged s b dmg) pl) as (t & pl' & Hrun & Hp' & Hant & Hsub & Hq & Hr).
    { done. }
    { done. }
    { intros b' Hb'. assert (b' ≠ b) as Hne by (intros ->; done).
      destruct (Hl b') as (Hin' & ib' & Hib' & Ht' & Hpl'); [by right|].
      split; [done|]. exists ib'. simpl. by rewrite lookup_alter_ne. }
    exists t, pl'. split; [simpl; by rewrite (bind_Ok _ _ _ _ _ Hstep)|].
    split; [done|]. split; [done|]. split; [done|]. split; [done|].
    intros r Hnin. apply not_elem_of_cons in Hnin as [Hne Hnin].
    rewrite Hr by done. simpl. by rewrite lookup_alter_ne.
Qed.

Lemma bind_deref_Some {A B} (a : A) (f : A → M B) s :
  (deref (Some a) ≫= f) s = f a s.
Proof. done. Qed.



Example skirmish_queen_stays :
  place_of (state_of (reduce_armor 5%nat 1) skirmish) 5%nat = Some 2%nat.
Proof. vm_compute. reflexivity. Qed.


(** ** C6: the scan and the throw of a thrower *)

Lemma random_choice_Ok (l : list ref) s :
  l ≠ [] →
  ∃ x, random_choice l s = Ok (x, set_random (tail (random s)) s)
       ∧ l !! (hd 0%nat (random s) `mod` length l)%nat = Some x.
Proof.
  intros Hl. unfold random_choice.
  destruct (l !! (hd 0%nat (random s) `mod` length l)%nat) as [x|] eqn:E; [eauto|].
  apply lookup_ge_None in E.
  assert (length l ≠ 0%nat) by (by destruct l).
  pose proof (Nat.mod_upper_bound (hd 0%nat (random s)) (length l)). lia.
Qed.

Lemma nearest_bee_loop_eq n i h stop (d d' : Z) (s s' : State) :
  d = d' → s = s' →
  nearest_bee_loop n i h stop d s = nearest_bee_loop n i h stop d' s'.
Proof. by intros -> ->. Qed.

(** Walking over places that are passed by costs draws of the generator and
    changes nothing else. *)
Lemma nearest_bee_loop_passes (i : Insect.t) (h : loc) (path : list loc) :
  ∀ (n : nat) (cur stop : option loc) (d : Z) (s : State),
    follows (place_store s) cur path = Some stop →
    passes (place_store s) h (Insect.type i) d path = true →
    (length path ≤ n)%nat →
    ∃ m, nearest_bee_loop n i h cur d s
         = nearest_bee_loop (n - length path) i h stop
             (d + Z.of_nat (length path)) (set_random (drop m (random s)) s).
Proof.
  induction path as [|q path IH]; intros n cur stop d s Hf Hp Hn.
  { simpl in Hf. injection Hf as ->. exists 0%nat. simpl. rewrite Nat.sub_0_r.
    apply nearest_bee_loop_eq; [lia | by destruct s]. }
  simpl in Hf, Hp, Hn.
  destruct (decide (cur = Some q)) as [->|Hne];
    [rewrite bool_decide_eq_true_2 in Hf by done
    |rewrite bool_decide_eq_false_2 in Hf by done; done].
  apply andb_prop in Hp as [Hp Hrest]. apply andb_prop in Hp as [Hqh Hskip].
  apply bool_decide_eq_true_1 in Hqh.
  destruct (place_store s !! q) as [pl|] eqn:Hq; [|done]. simpl in Hf.
  destruct n as [|n]; [lia|].
  cbn [nearest_bee_loop]. rewrite bool_decide_eq_false_2 by done.
  rewrite (bind_Ok _ _ _ _ _ (get_place_Ok _ _ _ Hq)).
  destruct (Place.bees pl) as [|b0 bs] eqn:Hb.
  - cbn [random_or_none]. rewrite bind_ret_l.
    rewrite bool_decide_eq_false_2 by (by intros []). cbn [andb].
    destruct (IH n (Place.entrance pl) stop (d + 1) s Hf Hrest) as [m Hm]; [lia|].
    exists m. rewrite Hm. cbn [length]. apply nearest_bee_loop_eq; [lia|done].
  - destruct (random_choice_Ok (b0 :: bs) s) as (x & Hx & _); [done|].
    cbn [random_or_none]. rewrite bind_assoc, (bind_Ok _ _ _ _ _ Hx), !bind_ret_l.
    assert (in_range (Insect.type i) d = false) as Hr.
    { apply orb_prop in Hskip as [H|H]; [by apply bool_decide_eq_true_1 in H|].
      by destruct (in_range _ _). }
    assert (bool_decide (Some x ≠ None)
            && bool_decide (d >= min_range (Insect.type i))
            && bool_decide (d <= max_range (Insect.type i)) = false) as ->.
    { unfold in_range in Hr. rewrite <- andb_assoc.
      apply andb_false_iff. right.
      apply andb_false_iff in Hr as [H|H]; apply andb_false_iff;
        [left|right]; apply bool_decide_eq_false_1 in H;
        apply bool_decide_eq_false_2; lia. }
    destruct (IH n (Place.entrance pl) stop (d + 1)
                (set_random (tail (random s)) s) Hf Hrest) as [m Hm]; [lia|].
    exists (S m). rewrite Hm. cbn [length]. apply nearest_bee_loop_eq; [lia|].
    unfold set_random. simpl. f_equal.
    destruct (random s); simpl; [by rewrite drop_nil|done].
Qed.

Lemma throw_reduces_armor s (self : ref) i (b : ref) ib q pl :
  insect_store s !! self = Some i →
  insect_store s !! b = Some ib →
  is_ant (Insect.type ib) = false →
  Insect.place ib = Some q →
  place_store s !! q = Some pl →
  b ∈ Place.bees pl →
  ∃ s', ThrowerAnt_throw_at self (Some b) s = Ok (tt, s')
        ∧ armor_of s' b = Some (Insect.armor ib - Insect.damage i).
Proof.
  intros Hself Hb Ht Hq Hpl Hin. unfold ThrowerAnt_throw_at, reduce_armor.
  rewrite (bind_Ok _ _ _ _ _ (get_insect_Ok _ _ _ Hself)).
  rewrite (bind_Ok _ _ _ _ _ (get_insect_Ok _ _ _ Hb)).
  assert (Insect.type ib = Bee) as -> by (by destruct (Insect.type ib)).
  destruct (decide (Insect.armor ib - Insect.damage i ≤ 0)) as [Hout|Halive].
  - rewrite (Insect_reduce_armor_out s b ib q _ Hb Hq Hout).
    destruct (list_remove_Some b _ Hin) as [bs Hbs].
    eexists. split.
    + eapply (Place_remove_insect_bee _ b
                (Insect.set_armor (Insect.armor ib - Insect.damage i) ib) q pl bs);
        [by simpl; rewrite lookup_alter_eq, Hb|done..].
    + unfold armor_of. simpl. by rewrite !lookup_alter_eq, Hb.
  - rewrite (Insect_reduce_armor_alive s b ib _ Hb Halive).
    eexists. split; [done|].
    unfold armor_of. simpl. by rewrite lookup_alter_eq, Hb.
Qed.


Example skirmish_thrower_stored :
  insect_store skirmish !! 3%nat = Some skirmish_thrower.
Proof. vm_compute. reflexivity. Qed.

Example skirmish_thrower_follows :
  follows (place_store skirmish) (Insect.place skirmish_thrower) [8%nat]
  = Some (Some 9%nat).
Proof. vm_compute. reflexivity. Qed.

Example skirmish_thrower_passes :
  passes (place_store skirmish) 0%nat (Insect.type skirmish_thrower) 0 [8%nat]
  = true.
Proof. vm_compute. reflexivity. Qed.


Example skirmish_throw :
  value_of (ThrowerAnt_action 9 3%nat) skirmish = Some tt
  ∧ armor_of skirmish 0%nat = Some 3
  ∧ armor_of (state_of (ThrowerAnt_action 9 3%nat) skirmish) 0%nat = Some 2.
Proof. repeat apply conj; vm_compute; reflexivity. Qed.

(** ** C8: water *)

(** C8 fails on the code for the bodyguard.  'water_0_2' is a [Water] place.
    A thrower deployed there is added, loses its armor and is removed, and
    a scuba thrower keeps its armor; a fire ant deployed on 'water_0_5' among
    two bees burns both before it is removed.  But deploying a bodyguard
    raises [AttributeError]: its armor is reduced to 0, [remove_insect]
    sets the place's ant to the ant the bodyguard holds, which is [None],
    and then reads [place] on it. *)
Theorem C8_bodyguard_on_water_raises :
  dict_get "water_0_2" (places (moat_tunnel 10)) = Some 4%nat
  ∧ Place.type <$> place_store (moat_tunnel 10) !! 4%nat = Some TWater
  ∧ watersafe BodyguardAnt = false
  ∧ deploy_ant "water_0_2" "Bodyguard" (moat_tunnel 10) = Err AttributeError
  ∧ (s ← get; a ← construct BodyguardAnt; add_insect 4%nat a) (moat_tunnel 10)
    = Err AttributeError
  ∧ (value_of (deploy_ant "water_0_2" "Thrower") (moat_tunnel 10) = Some tt
     ∧ armor_of (state_of (deploy_ant "water_0_2" "Thrower") (moat_tunnel 10))
         1%nat = Some 0
     ∧ place_of (state_of (deploy_ant "water_0_2" "Thrower") (moat_tunnel 10))
         1%nat = None
     ∧ visible_ant (state_of (deploy_ant "water_0_2" "Thrower") (moat_tunnel 10))
         4%nat = None)
  ∧ (value_of (deploy_ant "water_0_2" "Scuba") (moat_tunnel 10) = Some tt
     ∧ armor_of (state_of (deploy_ant "water_0_2" "Scuba") (moat_tunnel 10))
         1%nat = Some 1
     ∧ visible_ant (state_of (deploy_ant "water_0_2" "Scuba") (moat_tunnel 10))
         4%nat = Some 1%nat)
  ∧ (Place.bees <$> place_store bees_on_water !! 7%nat = Some [0%nat; 1%nat]
     ∧ Place.type <$> place_store bees_on_water !! 7%nat = Some TWater
     ∧ armor_of bees_on_water 0%nat = Some 3
     ∧ value_of (deploy_ant "water_0_5" "Fire") bees_on_water = Some tt
     ∧ armor_of (state_of (deploy_ant "water_0_5" "Fire") bees_on_water) 0%nat
       = Some 0
     ∧ armor_of (state_of (deploy_ant "water_0_5" "Fire") bees_on_water) 1%nat
       = Some 0
     ∧ Place.bees
         <$> place_store (state_of (deploy_ant "water_0_5" "Fire") bees_on_water)
             !! 7%nat = Some []
     ∧ visible_ant (state_of (deploy_ant "water_0_5" "Fire") bees_on_water)
         7%nat = None).
Proof. repeat apply conj; vm_compute; reflexivity. Qed.

(** * Further properties of the engine *)

(** ** Adding and removing insects *)

Lemma add_insect_bee s p pl b ib :
  place_store s !! p = Some pl →
  insect_store s !! b = Some ib →
  is_ant (Insect.type ib) = false →
  add_insect p b s
  = Ok (tt, set_insect_store
              (alter (Insect.set_place (Some p)) b (insect_store s))
              (set_place_store
                 (alter (λ pl, Place.set_bees (Place.bees pl ++ [b]) pl)
                    p (place_store s)) s)).
Proof.
  intros Hp Hb Ht.
  assert (Insect.type ib = Bee) as Hbee by (by destruct (Insect.type ib)).
  assert (Place_add_insect p b s
          = Ok (tt, set_insect_store
                      (alter (Insect.set_place (Some p)) b (insect_store s))
                      (set_place_store
                         (alter (λ pl, Place.set_bees (Place.bees pl ++ [b]) pl)
                            p (place_store s)) s))) as Hadd.
  { unfold Place_add_insect. mrun. rewrite Hb. simpl. rewrite Ht. reflexivity. }
  unfold add_insect, Water_add_insect.
  rewrite (bind_Ok _ _ _ _ _ (get_place_Ok _ _ _ Hp)).
  destruct (Place.type pl); try exact Hadd.
  rewrite (bind_Ok _ _ _ _ _ Hadd). mrun.
  rewrite lookup_alter_eq, Hb. simpl. rewrite Hbee. reflexivity.
Qed.

(** X1.  A bee added to a place, of whatever class, is appended to the bees the
    place lists and points to the place; the ant of the place, the bee's
    armor and all other places are as they were. *)
Theorem add_insect_bee_appends (s : State) (p : loc) (pl : Place.t)
    (b : ref) (ib : Insect.t) :
  place_store s !! p = Some pl →
  insect_store s !! b = Some ib →
  is_ant (Insect.type ib) = false →
  ∃ s', add_insect p b s = Ok (tt, s')
        ∧ bees_at s' p = Some (Place.bees pl ++ [b])
        ∧ visible_ant s' p = Place.ant pl
        ∧ place_of s' b = Some p
        ∧ armor_of s' b = Some (Insect.armor ib)
        ∧ ∀ q, q ≠ p → place_store s' !! q = place_store s !! q.
Proof.
  intros Hp Hb Ht. eexists. split.
  - exact (add_insect_bee s p pl b ib Hp Hb Ht).
  - unfold bees_at, visible_ant, place_of, armor_of. simpl.
    rewrite !lookup_alter_eq, Hp, Hb. simpl.
    repeat apply conj; try done.
    intros q Hq. by rewrite lookup_alter_ne.
Qed.

(** X2.  Adding an ant to a place that has an ant raises [AssertionError] unless
    one of the two can contain the other, on water as elsewhere. *)
Theorem add_insect_two_ants_raises (s : State) (p : loc) (pl : Place.t)
    (a c : ref) (ia ic : Insect.t) :
  place_store s !! p = Some pl →
  Place.ant pl = Some c →
  insect_store s !! a = Some ia →
  insect_store s !! c = Some ic →
  is_ant (Insect.type ia) = true →
  can_contain ic ia = false →
  can_contain ia ic = false →
  Place_add_insect p a s = Err AssertionError
  ∧ add_insect p a s = Err AssertionError.
Proof.
  intros Hp Hant Ha Hc Ht H1 H2.
  assert (Place_add_insect p a s = Err AssertionError) as Hadd.
  { unfold Place_add_insect. mrun. rewrite Ha. simpl. rewrite Ht, Hp. simpl.
    rewrite Hant, Hc. simpl. rewrite H1, H2. reflexivity. }
  split; [done|].
  unfold add_insect, Water_add_insect.
  rewrite (bind_Ok _ _ _ _ _ (get_place_Ok _ _ _ Hp)).
  destruct (Place.type pl); try done. by rewrite (bind_Err _ _ _ _ Hadd).
Qed.

(** X3.  An ant added to a place whose ant is a bodyguard with an empty slot
    goes into the slot: the bodyguard stays the ant of the place, and the
    new ant points to the place. *)
Theorem Place_add_insect_into_bodyguard (s : State) (p : loc) (pl : Place.t)
    (a c : ref) (ia ic : Insect.t) :
  place_store s !! p = Some pl →
  Place.ant pl = Some c →
  insect_store s !! a = Some ia →
  insect_store s !! c = Some ic →
  is_ant (Insect.type ia) = true →
  can_contain ic ia = true →
  ∃ s', Place_add_insect p a s = Ok (tt, s')
        ∧ visible_ant s' p = Some c
        ∧ sheltered_ant s' c = Some a
        ∧ place_of s' a = Some p
        ∧ bees_at s' p = Some (Place.bees pl).
Proof.
  intros Hp Hant Ha Hc Ht Hcan.
  assert (a ≠ c) as Hne.
  { intros ->. rewrite Ha in Hc. injection Hc as ->.
    unfold can_contain in Hcan.
    destruct (container (Insect.type ic)); simpl in Hcan; [|done].
    by rewrite andb_false_r in Hcan. }
  eexists. split.
  { unfold Place_add_insect. mrun. rewrite Ha. simpl. rewrite Ht, Hp. simpl.
    rewrite Hant, Hc. simpl. rewrite Hcan. reflexivity. }
  unfold visible_ant, sheltered_ant, place_of, bees_at. simpl.
  rewrite Hp. simpl.
  rewrite (lookup_alter_ne _ _ a c), !lookup_alter_eq by done.
  rewrite (lookup_alter_ne _ _ c a), Ha, Hc by done.
  done.
Qed.

(** X4.  [remove_insect] raises [AssertionError] for an ant that is not the ant
    the place shows (an ant held by a bodyguard, for one) and [ValueError]
    for a bee the place does not list. *)
Theorem Place_remove_insect_raises (s : State) (p : loc) (pl : Place.t)
    (r : ref) (i : Insect.t) :
  place_store s !! p = Some pl →
  insect_store s !! r = Some i →
  (is_ant (Insect.type i) = true → Place.ant pl ≠ Some r →
   Place_remove_insect p r s = Err AssertionError)
  ∧ (is_ant (Insect.type i) = false → r ∉ Place.bees pl →
     Place_remove_insect p r s = Err ValueError).
Proof.
  intros Hp Hr. split; intros Ht Hno; unfold Place_remove_insect; mrun;
    rewrite Hr, Hp; simpl; rewrite Ht; simpl.
  - by rewrite bool_decide_eq_false_2.
  - assert (list_remove r (Place.bees pl) = None) as ->; [|done].
    clear -Hno. induction (Place.bees pl) as [|y l IH]; [done|]. simpl.
    apply not_elem_of_cons in Hno as [? ?]. case_decide; [congruence|].
    by rewrite IH.
Qed.

(** *** Instances *)

Example spare_bee_entrance :
  place_store spare_bee !! 9%nat = Some (entrance_place [] None).
Proof. vm_compute. reflexivity. Qed.

Example spare_bee_stored : insect_store spare_bee !! 1%nat = Some (bee_3 None).
Proof. vm_compute. reflexivity. Qed.

Lemma add_insect_bee_appends_witness :
  ∃ s', add_insect 9%nat 1%nat spare_bee = Ok (tt, s')
        ∧ bees_at s' 9%nat = Some (Place.bees (entrance_place [] None) ++ [1%nat])
        ∧ visible_ant s' 9%nat = Place.ant (entrance_place [] None)
        ∧ place_of s' 1%nat = Some 9%nat
        ∧ armor_of s' 1%nat = Some (Insect.armor (bee_3 None))
        ∧ ∀ q, q ≠ 9%nat → place_store s' !! q = place_store spare_bee !! q.
Proof.
  exact (add_insect_bee_appends spare_bee 9%nat (entrance_place [] None) 1%nat
           (bee_3 None) spare_bee_entrance spare_bee_stored eq_refl).
Defined.

Example skirmish_entrance :
  place_store skirmish !! 9%nat
  = Some (entrance_place [0%nat; 1%nat] (Some 2%nat)).
Proof. vm_compute. reflexivity. Qed.

Example skirmish_fire_ant :
  insect_store skirmish !! 2%nat = Some (ant_of FireAnt (Some 9%nat)).
Proof. vm_compute. reflexivity. Qed.

Example spare_harvester_entrance :
  place_store spare_harvester !! 9%nat
  = Some (entrance_place [0%nat; 1%nat] (Some 2%nat)).
Proof. vm_compute. reflexivity. Qed.

Example spare_harvester_stored :
  insect_store spare_harvester !! 6%nat = Some (ant_of HarvesterAnt None).
Proof. vm_compute. reflexivity. Qed.

Example spare_harvester_fire_ant :
  insect_store spare_harvester !! 2%nat = Some (ant_of FireAnt (Some 9%nat)).
Proof. vm_compute. reflexivity. Qed.

Lemma add_insect_two_ants_raises_witness :
  Place_add_insect 9%nat 6%nat spare_harvester = Err AssertionError
  ∧ add_insect 9%nat 6%nat spare_harvester = Err AssertionError.
Proof.
  exact (add_insect_two_ants_raises spare_harvester 9%nat
           (entrance_place [0%nat; 1%nat] (Some 2%nat)) 6%nat 2%nat
           (ant_of HarvesterAnt None) (ant_of FireAnt (Some 9%nat))
           spare_harvester_entrance eq_refl spare_harvester_stored
           spare_harvester_fire_ant eq_refl eq_refl eq_refl).
Defined.

Example bodyguard_and_thrower_place :
  place_store bodyguard_and_thrower !! 2%nat
  = Some (Place.mk "tunnel_0_0" TPlace (Some 1%nat) [] (Some 1%nat) (Some 3%nat)).
Proof. vm_compute. reflexivity. Qed.

Example bodyguard_and_thrower_thrower :
  insect_store bodyguard_and_thrower !! 2%nat = Some (ant_of ThrowerAnt None).
Proof. vm_compute. reflexivity. Qed.

Example bodyguard_and_thrower_bodyguard :
  insect_store bodyguard_and_thrower !! 1%nat
  = Some (ant_of BodyguardAnt (Some 2%nat)).
Proof. vm_compute. reflexivity. Qed.

Lemma Place_add_insect_into_bodyguard_witness :
  ∃ s', Place_add_insect 2%nat 2%nat bodyguard_and_thrower = Ok (tt, s')
        ∧ visible_ant s' 2%nat = Some 1%nat
        ∧ sheltered_ant s' 1%nat = Some 2%nat
        ∧ place_of s' 2%nat = Some 2%nat
        ∧ bees_at s' 2%nat
          = Some (Place.bees (Place.mk "tunnel_0_0" TPlace (Some 1%nat) []
                                (Some 1%nat) (Some 3%nat))).
Proof.
  exact (Place_add_insect_into_bodyguard bodyguard_and_thrower 2%nat
           (Place.mk "tunnel_0_0" TPlace (Some 1%nat) [] (Some 1%nat)
              (Some 3%nat))
           2%nat 1%nat (ant_of ThrowerAnt None)
           (ant_of BodyguardAnt (Some 2%nat))
           bodyguard_and_thrower_place eq_refl bodyguard_and_thrower_thrower
           bodyguard_and_thrower_bodyguard eq_refl eq_refl).
Defined.

Example skirmish_guarded_place :
  place_store skirmish !! 8%nat
  = Some (Place.mk "tunnel_0_6" TPlace (Some 7%nat) [] (Some 4%nat) (Some 9%nat)).
Proof. vm_compute. reflexivity. Qed.

Example skirmish_held_thrower :
  insect_store skirmish !! 3%nat = Some (ant_of ThrowerAnt (Some 8%nat)).
Proof. vm_compute. reflexivity. Qed.

Example skirmish_bee :
  insect_store skirmish !! 0%nat = Some (bee_3 (Some 9%nat)).
Proof. vm_compute. reflexivity. Qed.

Lemma Place_remove_insect_raises_witness :
  Place_remove_insect 8%nat 3%nat skirmish = Err AssertionError
  ∧ Place_remove_insect 8%nat 0%nat skirmish = Err ValueError.
Proof.
  split.
  - apply (proj1 (Place_remove_insect_raises skirmish 8%nat
             (Place.mk "tunnel_0_6" TPlace (Some 7%nat) [] (Some 4%nat)
                (Some 9%nat))
             3%nat (ant_of ThrowerAnt (Some 8%nat))
             skirmish_guarded_place skirmish_held_thrower)).
    + reflexivity.
    + simpl. discriminate.
  - apply (proj2 (Place_remove_insect_raises skirmish 8%nat
             (Place.mk "tunnel_0_6" TPlace (Some 7%nat) [] (Some 4%nat)
                (Some 9%nat))
             0%nat (bee_3 (Some 9%nat))
             skirmish_guarded_place skirmish_bee)).
    + reflexivity.
    + simpl. apply not_elem_of_nil.
Defined.

(** ** Removing an ant by the name of its place *)

(** X5.  [remove_ant] does nothing for a place without an ant and for the place
    of the true queen; for a place name that is not registered it raises
    [KeyError]. *)
Theorem remove_ant_leaves_alone (s : State) (place_name : string) :
  (dict_get place_name (places s) = None →
   remove_ant place_name s = Err KeyError)
  ∧ (∀ p pl, dict_get place_name (places s) = Some p →
       place_store s !! p = Some pl →
       Place.ant pl = None →
       remove_ant place_name s = Ok (tt, s))
  ∧ (∀ p pl a ia, dict_get place_name (places s) = Some p →
       place_store s !! p = Some pl →
       Place.ant pl = Some a →
       insect_store s !! a = Some ia →
       Insect.type ia = QueenAnt →
       Insect.true_queen ia = true →
       remove_ant place_name s = Ok (tt, s)).
Proof.
  repeat apply conj.
  - intros Hk. unfold remove_ant, lookup_key. mrun. by rewrite Hk.
  - intros p pl Hk Hp Hant. unfold remove_ant, lookup_key. mrun.
    rewrite Hk. simpl. rewrite Hp. simpl. by rewrite Hant.
  - intros p pl a ia Hk Hp Hant Ha Ht Hq. unfold remove_ant, lookup_key.
    unfold mbind at 1, M_bind at 1, get. rewrite Hk. rewrite bind_ret_l.
    rewrite (bind_Ok _ _ _ _ _ (get_place_Ok _ _ _ Hp)), Hant.
    by apply (Place_remove_insect_queen s a ia p pl).
Qed.

(** X6.  [remove_ant] on the place of an ant that is neither a bodyguard nor the
    true queen empties the place: afterwards no place shows or lists the
    ant and it points to no place. *)
Theorem remove_ant_removes (s : State) (place_name : string) (p : loc)
    (pl : Place.t) (a : ref) (ia : Insect.t) :
  consistent s = true →
  dict_get place_name (places s) = Some p →
  place_store s !! p = Some pl →
  Place.ant pl = Some a →
  insect_store s !! a = Some ia →
  container (Insect.type ia) = false →
  bool_decide (Insect.type ia = QueenAnt) && Insect.true_queen ia = false →
  ∃ s', remove_ant place_name s = Ok (tt, s')
        ∧ visible_ant s' p = None
        ∧ gone s' a.
Proof.
  intros Hc Hk Hp Hant Ha Hcont Hq.
  destruct (consistent_place s p pl Hc Hp) as (_ & _ & Hants).
  destruct (Hants a Hant) as (ia' & Ha' & Ht & Hpl).
  rewrite Ha in Ha'. injection Ha' as <-.
  pose proof (consistent_only_at s a ia p Hc Ha Hpl) as Honly.
  destruct (Place_remove_insect_gone s a ia p pl) as (s' & Hrun & Hgone);
    try done.
  { by rewrite Ht. }
  { by rewrite Hcont. }
  exists s'. split.
  - unfold remove_ant, lookup_key.
    unfold mbind at 1, M_bind at 1, get. rewrite Hk. rewrite bind_ret_l.
    by rewrite (bind_Ok _ _ _ _ _ (get_place_Ok _ _ _ Hp)), Hant.
  - split; [|done].
    rewrite (Place_remove_insect_ant s a ia p pl) in Hrun by done.
    injection Hrun as <-. unfold visible_ant. simpl.
    by rewrite lookup_alter_eq, Hp.
Qed.

(** ** Names that are not registered *)

(** X7.  [deploy_ant] raises [KeyError] for a name that is no ant class, whatever
    the food and the place; for an ant class it can pay, it raises
    [KeyError] for a place name that is not registered and constructs
    nothing; short of food it only prints, whatever the place name. *)
Theorem deploy_ant_unknown_names (s : State) (place_name ant_type_name : string) :
  (dict_get ant_type_name (ant_types s) = None →
   deploy_ant place_name ant_type_name s = Err KeyError)
  ∧ (∀ t, dict_get ant_type_name (ant_types s) = Some t →
       dict_get place_name (places s) = None →
       deploy_ant place_name ant_type_name s
       = if bool_decide (food s < food_cost t)
         then Ok (tt, set_stdout (stdout s ++ [NotEnoughFood ant_type_name]) s)
         else Err KeyError).
Proof.
  split.
  - intros Hk. unfold deploy_ant, lookup_key. mrun. by rewrite Hk.
  - intros t Hk Hp. unfold deploy_ant, lookup_key.
    unfold mbind at 1, M_bind at 1, get. rewrite Hk. rewrite bind_ret_l.
    case_bool_decide; [done|]. mrun. by rewrite Hp.
Qed.

(** *** Instance *)

Example skirmish_consistent : consistent skirmish = true.
Proof. vm_compute. reflexivity. Qed.

Example skirmish_places_entrance :
  dict_get "tunnel_0_7" (places skirmish) = Some 9%nat.
Proof. vm_compute. reflexivity. Qed.

Lemma remove_ant_removes_witness :
  ∃ s', remove_ant "tunnel_0_7" skirmish = Ok (tt, s')
        ∧ visible_ant s' 9%nat = None
        ∧ gone s' 2%nat.
Proof.
  exact (remove_ant_removes skirmish "tunnel_0_7" 9%nat
           (entrance_place [0%nat; 1%nat] (Some 2%nat)) 2%nat
           (ant_of FireAnt (Some 9%nat))
           skirmish_consistent skirmish_places_entrance skirmish_entrance
           eq_refl skirmish_fire_ant eq_refl eq_refl).
Defined.

(** ** Constructing ants *)

Lemma new_insect_fresh (i : Insect.t) (s : State) :
  ∃ r, new_insect i s = Ok (r, set_insect_store (<[r := i]> (insect_store s)) s)
       ∧ insect_store s !! r = None.
Proof.
  exists (fresh (dom (insect_store s))). split; [done|].
  apply not_elem_of_dom, is_fresh.
Qed.

Lemma construct_fresh (t : InsectType) (s : State) :
  ∃ r s',
    construct t s = Ok (r, s')
    ∧ insect_store s !! r = None
    ∧ insect_store s' !! r
      = Some (Insect.mk t (initial_armor t) None (cls_damage t) Method 0 None []
                (bool_decide (t = QueenAnt)
                 && bool_decide (number_of_queens s = 0)))
    ∧ number_of_queens s'
      = (if bool_decide (t = QueenAnt) && bool_decide (number_of_queens s = 0)
         then number_of_queens s + 1 else number_of_queens s)
    ∧ (∀ x, x ≠ r → insect_store s' !! x = insect_store s !! x)
    ∧ place_store s' = place_store s
    ∧ food s' = food s.
Proof.
  destruct (new_insect_fresh
              (Insect.mk t (initial_armor t) None (cls_damage t) Method 0 None
                 [] false) s) as (r & Hnew & Hfresh).
  exists r. unfold construct. rewrite (bind_Ok _ _ _ _ _ Hnew).
  destruct (decide (t = QueenAnt)) as [->|Hne].
  - rewrite (bool_decide_eq_true_2 (QueenAnt = QueenAnt)) by done. simpl.
    mrun. case_bool_decide as Hz; simpl.
    + eexists. split; [reflexivity|]. simpl.
      rewrite lookup_alter_eq, lookup_insert_eq. simpl.
      repeat apply conj; try done.
      intros x Hx. by rewrite lookup_alter_ne, lookup_insert_ne.
    + eexists. split; [reflexivity|]. simpl.
      rewrite lookup_insert_eq.
      repeat apply conj; try done.
      intros x Hx. by rewrite lookup_insert_ne.
  - rewrite (bool_decide_eq_false_2 (t = QueenAnt)) by done. simpl.
    exists (set_insect_store
              (<[r := Insect.mk t (initial_armor t) None (cls_damage t) Method
                        0 None [] false]> (insect_store s)) s).
    split; [by destruct t|]. simpl. rewrite lookup_insert_eq.
    repeat apply conj; try done.
    intros x Hx. by rewrite lookup_insert_ne.
Qed.

(** X8.  [constructor()] allocates an insect that no reference named before, with
    the armor and damage of its class, in no place and with its own action;
    it is a true queen exactly when it is a [QueenAnt] and none was
    constructed before, and only then the counter of queens goes up.  All
    other insects and all places are as they were. *)
Theorem construct_new_ant (t : InsectType) (s : State) :
  ∃ r s',
    construct t s = Ok (r, s')
    ∧ insect_store s !! r = None
    ∧ insect_store s' !! r
      = Some (Insect.mk t (initial_armor t) None (cls_damage t) Method 0 None []
                (bool_decide (t = QueenAnt)
                 && bool_decide (number_of_queens s = 0)))
    ∧ number_of_queens s'
      = (if bool_decide (t = QueenAnt) && bool_decide (number_of_queens s = 0)
         then number_of_queens s + 1 else number_of_queens s)
    ∧ (∀ x, x ≠ r → insect_store s' !! x = insect_store s !! x)
    ∧ place_store s' = place_store s
    ∧ food s' = food s.
Proof. exact (construct_fresh t s). Qed.

(** X9.  Of two queens constructed one after the other, from any state, the
    second is never a true queen, and the two are different insects. *)
Theorem second_queen_is_impostor (s : State) :
  ∃ r1 s1 r2 s2,
    construct QueenAnt s = Ok (r1, s1)
    ∧ construct QueenAnt s1 = Ok (r2, s2)
    ∧ r1 ≠ r2
    ∧ Insect.true_queen <$> insect_store s2 !! r2 = Some false
    ∧ Insect.true_queen <$> insect_store s2 !! r1
      = Some (bool_decide (number_of_queens s = 0)).
Proof.
  destruct (construct_fresh QueenAnt s)
    as (r1 & s1 & H1 & Hf1 & Hr1 & Hn1 & _).
  destruct (construct_fresh QueenAnt s1)
    as (r2 & s2 & H2 & Hf2 & Hr2 & _ & Ho2 & _).
  exists r1, s1, r2, s2.
  assert (r1 ≠ r2) as Hne by (intros ->; congruence).
  assert (number_of_queens s1 ≠ 0) as Hn.
  { rewrite Hn1. simpl.
    destruct (decide (number_of_queens s = 0)) as [E|E];
      [rewrite bool_decide_eq_true_2 by done
      |rewrite bool_decide_eq_false_2 by done]; lia. }
  repeat apply conj; try done.
  - rewrite Hr2. simpl. by rewrite (bool_decide_eq_false_2 _ Hn).
  - by rewrite Ho2, Hr1.
Qed.

(** ** Reducing armor without running out *)

(** X10.  While armor remains, [reduce_armor] changes nothing but the armor of an
    insect that is in a place, of whatever class (a fire ant burns no bee).
    For an insect that is in no place it raises [AttributeError] if the
    insect is a fire ant, and also when no armor remains. *)
Theorem reduce_armor_survives (s : State) (u : ref) (iu : Insect.t)
    (amount : Z) :
  insect_store s !! u = Some iu →
  (∀ p pl, Insect.place iu = Some p → place_store s !! p = Some pl →
     Insect.armor iu - amount > 0 →
     reduce_armor u amount s = Ok (tt, damaged s u amount))
  ∧ (Insect.place iu = None →
     reduce_armor u amount s
     = if bool_decide (Insect.type iu = FireAnt)
          || bool_decide (Insect.armor iu - amount ≤ 0)
       then Err AttributeError
       else Ok (tt, damaged s u amount)).
Proof.
  intros Hu.
  assert (insect_store (damaged s u amount) !! u
          = Some (Insect.set_armor (Insect.armor iu - amount) iu)) as Hu1.
  { simpl. by rewrite lookup_alter_eq, Hu. }
  split.
  - intros p pl Hp Hpl Harm. unfold reduce_armor.
    rewrite (bind_Ok _ _ _ _ _ (get_insect_Ok _ _ _ Hu)).
    destruct (decide (Insect.type iu = FireAnt)) as [Hf|Hnf].
    + rewrite Hf. unfold FireAnt_reduce_armor.
      rewrite (bind_Ok _ _ s tt (damaged s u amount) eq_refl).
      rewrite (bind_Ok _ _ _ _ _ (get_insect_Ok _ _ _ Hu1)).
      assert (Insect.place (Insect.set_armor (Insect.armor iu - amount) iu)
              = Some p) as -> by done.
      rewrite bind_deref_Some.
      rewrite (bind_Ok _ _ _ _ _ (get_place_Ok p (damaged s u amount) pl Hpl)).
      simpl. by rewrite bool_decide_eq_false_2 by lia.
    + assert (match Insect.type iu with
              | FireAnt => FireAnt_reduce_armor u amount
              | _ => Insect_reduce_armor u amount
              end = Insect_reduce_armor u amount) as ->
        by (by destruct (Insect.type iu)).
      apply (Insect_reduce_armor_alive s u iu amount Hu). lia.
  - intros Hp. unfold reduce_armor.
    rewrite (bind_Ok _ _ _ _ _ (get_insect_Ok _ _ _ Hu)).
    destruct (decide (Insect.type iu = FireAnt)) as [Hf|Hnf].
    + rewrite Hf. rewrite (bool_decide_eq_true_2 (FireAnt = FireAnt)) by done.
      simpl. unfold FireAnt_reduce_armor.
      rewrite (bind_Ok _ _ s tt (damaged s u amount) eq_refl).
      rewrite (bind_Ok _ _ _ _ _ (get_insect_Ok _ _ _ Hu1)).
      assert (Insect.place (Insect.set_armor (Insect.armor iu - amount) iu)
              = None) as -> by done.
      done.
    + rewrite (bool_decide_eq_false_2 _ Hnf). simpl.
      assert (match Insect.type iu with
              | FireAnt => FireAnt_reduce_armor u amount
              | _ => Insect_reduce_armor u amount
              end = Insect_reduce_armor u amount) as ->
        by (by destruct (Insect.type iu)).
      case_bool_decide as Ha.
      * unfold Insect_reduce_armor. mrun. rewrite lookup_alter_eq, Hu. simpl.
        rewrite bool_decide_eq_true_2 by done. by rewrite Hp.
      * by apply (Insect_reduce_armor_alive s u iu amount Hu).
Qed.

(** *** Instance *)

Lemma reduce_armor_survives_witness :
  reduce_armor 0%nat 1 skirmish = Ok (tt, damaged skirmish 0%nat 1)
  ∧ reduce_armor 2%nat 1 bodyguard_and_thrower = Err AttributeError.
Proof.
  split.
  - apply (proj1 (reduce_armor_survives skirmish 0%nat (bee_3 (Some 9%nat)) 1
                    skirmish_bee)
             9%nat (entrance_place [0%nat; 1%nat] (Some 2%nat))).
    + reflexivity.
    + exact skirmish_entrance.
    + simpl. lia.
  - apply (proj2 (reduce_armor_survives bodyguard_and_thrower 2%nat
                    (ant_of ThrowerAnt None) 1 bodyguard_and_thrower_thrower)).
    reflexivity.
Defined.

(** ** The impostor queen *)

(** X11.  The action of a queen that is not the true queen, when she is the ant
    her place shows: she runs out of armor and leaves her place, and
    neither [colony.queen] nor the damage of any insect changes. *)
Theorem impostor_queen_dies (gas : nat) (s : State) (q : ref) (iq : Insect.t)
    (p : loc) :
  consistent s = true →
  insect_store s !! q = Some iq →
  Insect.type iq = QueenAnt →
  Insect.true_queen iq = false →
  occupies s q p →
  ∃ s', QueenAnt_action gas q s = Ok (tt, s')
        ∧ armor_of s' q = Some 0
        ∧ gone s' q
        ∧ visible_ant s' p = None
        ∧ queen s' = queen s
        ∧ ∀ x, damage_of s' x = damage_of s x.
Proof.
  intros Hc Hq Ht Htq (iq' & pl & Hq' & Hpl & Hp & Hocc).
  rewrite Hq in Hq'. injection Hq' as <-. rewrite Ht in Hocc. simpl in Hocc.
  pose proof (consistent_only_at s q iq p Hc Hq Hpl) as Honly.
  set (iq1 := Insect.set_armor (Insect.armor iq - Insect.armor iq) iq).
  set (t := set_stdout (stdout s ++ [Expired q]) (damaged s q (Insect.armor iq))).
  assert (insect_store t !! q = Some iq1) as Hq1.
  { simpl. by rewrite lookup_alter_eq, Hq. }
  assert (QueenAnt_action gas q s = Place_remove_insect p q t) as Hrun.
  { unfold QueenAnt_action, reduce_armor.
    rewrite (bind_Ok _ _ _ _ _ (get_insect_Ok _ _ _ Hq)), Htq. simpl.
    rewrite (bind_Ok _ _ _ _ _ (get_insect_Ok _ _ _ Hq)), Ht.
    apply (Insect_reduce_armor_out s q iq p _ Hq Hpl). lia. }
  assert (Place_remove_insect p q t
          = Ok (tt, set_insect_store
                      (alter (Insect.set_place None) q (insect_store t))
                      (set_place_store
                         (alter (Place.set_ant None) p (place_store t)) t)))
    as Hrem.
  { apply (Place_remove_insect_ant t q iq1 p pl); try done.
    - simpl. by rewrite Ht.
    - simpl. by rewrite Ht.
    - simpl. by rewrite Htq, andb_false_r. }
  destruct (Place_remove_insect_gone t q iq1 p pl) as (s' & Hrun' & Hgone);
    try done.
  { simpl. by rewrite Ht. }
  { simpl. by rewrite Ht. }
  { simpl. by rewrite Htq, andb_false_r. }
  exists s'. rewrite Hrun. split; [done|].
  rewrite Hrem in Hrun'. injection Hrun' as <-.
  split; [|split; [done|]].
  { unfold armor_of. simpl. rewrite !lookup_alter_eq, Hq. simpl.
    f_equal. lia. }
  split; [unfold visible_ant; simpl; by rewrite lookup_alter_eq, Hp|].
  split; [done|].
  intros x. unfold damage_of. simpl.
  destruct (decide (x = q)) as [->|Hne].
  - rewrite !lookup_alter_eq, Hq. done.
  - by rewrite !lookup_alter_ne.
Qed.

(** *** Instance *)

Example two_queens_consistent : consistent two_queens = true.
Proof. vm_compute. reflexivity. Qed.

Example two_queens_impostor :
  insect_store two_queens !! 2%nat = Some (ant_of QueenAnt (Some 3%nat)).
Proof. vm_compute. reflexivity. Qed.

Example two_queens_place :
  place_store two_queens !! 3%nat
  = Some (Place.mk "tunnel_0_1" TPlace (Some 2%nat) [] (Some 2%nat) (Some 4%nat)).
Proof. vm_compute. reflexivity. Qed.

Lemma impostor_queen_dies_witness :
  ∃ s', QueenAnt_action 9 2%nat two_queens = Ok (tt, s')
        ∧ armor_of s' 2%nat = Some 0
        ∧ gone s' 2%nat
        ∧ visible_ant s' 3%nat = None
        ∧ queen s' = queen two_queens
        ∧ ∀ x, damage_of s' x = damage_of two_queens x.
Proof.
  apply (impostor_queen_dies 9 two_queens 2%nat (ant_of QueenAnt (Some 3%nat))
           3%nat two_queens_consistent two_queens_impostor eq_refl eq_refl).
  exists (ant_of QueenAnt (Some 3%nat)),
    (Place.mk "tunnel_0_1" TPlace (Some 2%nat) [] (Some 2%nat) (Some 4%nat)).
  repeat apply conj.
  - exact two_queens_impostor.
  - reflexivity.
  - exact two_queens_place.
  - reflexivity.
Defined.

(** ** Damaging all bees of a place *)

(** The loop [for bee in temp_bees: bee.reduce_armor(dmg)] of [FireAnt] and
    [NinjaAnt], run by an ant [self] whose record it leaves alone: every bee
    of the list loses [dmg] armor; those left without armor are removed
    from the place and point to no place, the others stay. *)
Lemma each_bee_hit (self : ref) (i : Insect.t) (dmg : Z) (p : loc)
    (body : ref → M unit) :
  (∀ t b ib, insect_store t !! self = Some i →
     insect_store t !! b = Some ib → is_ant (Insect.type ib) = false →
     body b t = Insect_reduce_armor b dmg t) →
  ∀ (l : list ref) s pl,
    insect_store s !! self = Some i →
    self ∉ l →
    place_store s !! p = Some pl → NoDup l → NoDup (Place.bees pl) →
    (∀ b, b ∈ l →
       b ∈ Place.bees pl
       ∧ ∃ ib, insect_store s !! b = Some ib
               ∧ is_ant (Insect.type ib) = false ∧ Insect.place ib = Some p) →
    ∃ t pl',
      for_each l body s = Ok (tt, t)
      ∧ place_store t !! p = Some pl'
      ∧ Place.ant pl' = Place.ant pl
      ∧ NoDup (Place.bees pl')
      ∧ (∀ x, x ∈ Place.bees pl' → x ∈ Place.bees pl)
      ∧ (∀ x, x ∉ l → x ∈ Place.bees pl → x ∈ Place.bees pl')
      ∧ (∀ q, q ≠ p → place_store t !! q = place_store s !! q)
      ∧ (∀ r, r ∉ l → insect_store t !! r = insect_store s !! r)
      ∧ (∀ b ib, b ∈ l → insect_store s !! b = Some ib →
           armor_of t b = Some (Insect.armor ib - dmg)
           ∧ if bool_decide (Insect.armor ib - dmg ≤ 0)
             then place_of t b = None ∧ b ∉ Place.bees pl'
             else place_of t b = Some p ∧ b ∈ Place.bees pl').
Proof.
  intros Hbody. induction l as [|b l IH]; intros s pl Hself Hsl Hp Hnd Hndp Hl.
  { exists s, pl. repeat apply conj; try done. intros b ib Hb. inversion Hb. }
  apply NoDup_cons in Hnd as [Hbl Hnd].
  apply not_elem_of_cons in Hsl as [Hsb Hsl].
  destruct (Hl b) as (Hin & ib & Hib & Ht & Hpl); [left|].
  cbn [for_each]. unfold mbind at 1, M_bind at 1.
  rewrite (Hbody s b ib Hself Hib Ht).
  destruct (decide (Insect.armor ib - dmg ≤ 0)) as [Hout|Halive].
  - destruct (list_remove_Some b _ Hin) as [bs Hbs].
    destruct (list_remove_NoDup b _ _ Hndp Hbs) as [Hbbs Hndbs].
    rewrite (Insect_reduce_armor_out s b ib p dmg Hib Hpl Hout).
    rewrite (Place_remove_insect_bee _ b
               (Insect.set_armor (Insect.armor ib - dmg) ib) p pl bs);
      [|by simpl; rewrite lookup_alter_eq, Hib|done|done|done].
    simpl.
    match goal with |- ∃ _ _, for_each _ _ ?x = _ ∧ _ => set (s2 := x) end.
    destruct (IH s2 (Place.set_bees bs pl))
      as (t & pl' & Hrun & Hp' & Hant & Hnd' & Hsub & Hkeep & Hq & Hr & Harm).
    { subst s2. simpl. by rewrite !lookup_alter_ne. }
    { done. }
    { subst s2. simpl. by rewrite lookup_alter_eq, Hp. }
    { done. }
    { done. }
    { intros b' Hb'. assert (b' ≠ b) as Hne by (intros ->; done).
      destruct (Hl b') as (Hin' & ib' & Hib' & Ht' & Hpl'); [by right|].
      split; [simpl; by eapply list_remove_other|].
      exists ib'. subst s2. simpl. by rewrite !lookup_alter_ne. }
    exists t, pl'. repeat apply conj; try done.
    + intros x Hx. eapply list_remove_subseteq; [done|]. by apply Hsub.
    + intros x Hx Hxin. apply not_elem_of_cons in Hx as [Hxb Hxl].
      apply Hkeep; [done|]. simpl. by eapply list_remove_other.
    + intros q Hne. rewrite Hq by done. subst s2. simpl.
      by rewrite lookup_alter_ne.
    + intros r Hnin. apply not_elem_of_cons in Hnin as [Hne Hnin].
      rewrite Hr by done. subst s2. simpl. by rewrite !lookup_alter_ne.
    + intros b' ib' Hb' Hib'. apply elem_of_cons in Hb' as [->|Hb'].
      * rewrite Hib in Hib'. injection Hib' as <-.
        unfold armor_of, place_of. rewrite Hr by done. subst s2. simpl.
        rewrite !lookup_alter_eq, Hib. simpl.
        rewrite bool_decide_eq_true_2 by done.
        repeat apply conj; try done.
        intros Hx. by apply Hsub in Hx.
      * assert (b' ≠ b) as Hne by (intros ->; done).
        apply (Harm b' ib' Hb'). subst s2. simpl. by rewrite !lookup_alter_ne.
  - rewrite (Insect_reduce_armor_alive s b ib dmg Hib Halive).
    destruct (IH (damaged s b dmg) pl)
      as (t & pl' & Hrun & Hp' & Hant & Hnd' & Hsub & Hkeep & Hq & Hr & Harm).
    { simpl. by rewrite lookup_alter_ne. }
    { done. }
    { done. }
    { done. }
    { done. }
    { intros b' Hb'. assert (b' ≠ b) as Hne by (intros ->; done).
      destruct (Hl b') as (Hin' & ib' & Hib' & Ht' & Hpl'); [by right|].
      split; [done|]. exists ib'. simpl. by rewrite lookup_alter_ne. }
    exists t, pl'. repeat apply conj; try done.
    + intros x Hx Hxin. apply not_elem_of_cons in Hx as [Hxb Hxl].
      by apply Hkeep.
    + intros r Hnin. apply not_elem_of_cons in Hnin as [Hne Hnin].
      rewrite Hr by done. simpl. by rewrite lookup_alter_ne.
    + intros b' ib' Hb' Hib'. apply elem_of_cons in Hb' as [->|Hb'].
      * rewrite Hib in Hib'. injection Hib' as <-.
        unfold armor_of, place_of. rewrite Hr by done. simpl.
        rewrite !lookup_alter_eq, Hib. simpl.
        rewrite bool_decide_eq_false_2 by done.
        repeat apply conj; try done. by apply Hkeep.
      * assert (b' ≠ b) as Hne by (intros ->; done).
        apply (Harm b' ib' Hb'). simpl. by rewrite lookup_alter_ne.
Qed.

(** X12.  A ninja's action takes the ninja's damage off the armor of every bee
    of its place, once each; the bees left without armor leave the place,
    the others and the ninja stay as they are. *)
Theorem NinjaAnt_hits_every_bee (s : State) (self : ref) (i : Insect.t)
    (p : loc) (pl : Place.t) :
  consistent s = true →
  insect_store s !! self = Some i →
  is_ant (Insect.type i) = true →
  Insect.place i = Some p →
  place_store s !! p = Some pl →
  ∃ s' bs,
    NinjaAnt_action self s = Ok (tt, s')
    ∧ insect_store s' !! self = Some i
    ∧ visible_ant s' p = Place.ant pl
    ∧ bees_at s' p = Some bs
    ∧ ∀ b ib, b ∈ Place.bees pl → insect_store s !! b = Some ib →
        armor_of s' b = Some (Insect.armor ib - Insect.damage i)
        ∧ if bool_decide (Insect.armor ib - Insect.damage i ≤ 0)
          then place_of s' b = None ∧ b ∉ bs
          else place_of s' b = Some p ∧ b ∈ bs.
Proof.
  intros Hc Hself Ht Hpl Hp.
  destruct (consistent_place s p pl Hc Hp) as (Hnd & Hbees & _).
  assert (self ∉ Place.bees pl) as Hnot.
  { intros Hin. destruct (Hbees self Hin) as (ib & Hib & Htb & _).
    rewrite Hself in Hib. injection Hib as <-. congruence. }
  destruct (each_bee_hit self i (Insect.damage i) p
              (λ bee, i' ← get_insect self; reduce_armor bee (Insect.damage i'))
              ) with (l := Place.bees pl) (s := s) (pl := pl)
    as (t & pl' & Hrun & Hp' & Hant & _ & _ & _ & _ & Hr & Harm); try done.
  { intros t b ib Hs Hb Htb.
    rewrite (bind_Ok _ _ _ _ _ (get_insect_Ok _ _ _ Hs)). unfold reduce_armor.
    rewrite (bind_Ok _ _ _ _ _ (get_insect_Ok _ _ _ Hb)).
    by destruct (Insect.type ib). }
  { intros b Hb. split; [done|]. by apply Hbees. }
  exists t, (Place.bees pl'). split.
  { unfold NinjaAnt_action.
    rewrite (bind_Ok _ _ _ _ _ (get_insect_Ok _ _ _ Hself)), Hpl.
    rewrite bind_deref_Some.
    by rewrite (bind_Ok _ _ _ _ _ (get_place_Ok _ _ _ Hp)). }
  split; [by rewrite Hr|].
  unfold visible_ant, bees_at. rewrite Hp'. simpl.
  repeat apply conj; try done.
Qed.

(** X13.  A fire ant that runs out of armor takes its damage off the armor of
    every bee of its place before it leaves: the bees left without armor
    leave the place too, the others stay. *)
Theorem FireAnt_burns_every_bee (s : State) (u : ref) (iu : Insect.t)
    (p : loc) (pl : Place.t) (amount : Z) :
  consistent s = true →
  insect_store s !! u = Some iu →
  Insect.type iu = FireAnt →
  Insect.place iu = Some p →
  place_store s !! p = Some pl →
  Place.ant pl = Some u →
  Insect.armor iu ≤ amount →
  ∃ s' bs,
    reduce_armor u amount s = Ok (tt, s')
    ∧ place_of s' u = None
    ∧ visible_ant s' p = None
    ∧ bees_at s' p = Some bs
    ∧ ∀ b ib, b ∈ Place.bees pl → insect_store s !! b = Some ib →
        armor_of s' b = Some (Insect.armor ib - Insect.damage iu)
        ∧ if bool_decide (Insect.armor ib - Insect.damage iu ≤ 0)
          then place_of s' b = None ∧ b ∉ bs
          else place_of s' b = Some p ∧ b ∈ bs.
Proof.
  intros Hc Hu Hf Hpl Hp Hant Harm.
  destruct (consistent_place s p pl Hc Hp) as (Hnd & Hbees & _).
  set (iu1 := Insect.set_armor (Insect.armor iu - amount) iu).
  assert (insect_store (damaged s u amount) !! u = Some iu1) as Hu1.
  { simpl. by rewrite lookup_alter_eq, Hu. }
  assert (∀ b, b ∈ Place.bees pl → b ≠ u) as Hne.
  { intros b Hb ->. destruct (Hbees u Hb) as (ib & Hib & Htb & _).
    rewrite Hu in Hib. injection Hib as <-. by rewrite Hf in Htb. }
  destruct (each_bee_hit u iu1 (Insect.damage iu1) p
              (λ bee, Insect_reduce_armor bee (Insect.damage iu1)))
    with (l := Place.bees pl) (s := damaged s u amount) (pl := pl)
    as (t & pl' & Hrun & Hp' & Hant' & _ & _ & _ & _ & Hr & Hhit); try done.
  { intros Hin. by apply (Hne u Hin). }
  { intros b Hb. split; [done|].
    destruct (Hbees b Hb) as (ib & Hib & Htb & Hplb).
    exists ib. simpl. by rewrite lookup_alter_ne by (by apply not_eq_sym, Hne). }
  assert (insect_store t !! u = Some iu1) as Hut.
  { rewrite Hr; [done|]. intros Hin. by apply (Hne u Hin). }
  assert (reduce_armor u amount s = Place_remove_insect p u t) as Hred.
  { unfold reduce_armor.
    rewrite (bind_Ok _ _ _ _ _ (get_insect_Ok _ _ _ Hu)), Hf.
    unfold FireAnt_reduce_armor.
    rewrite (bind_Ok _ _ s tt (damaged s u amount) eq_refl).
    rewrite (bind_Ok _ _ _ _ _ (get_insect_Ok _ _ _ Hu1)).
    assert (Insect.place iu1 = Some p) as -> by done.
    rewrite bind_deref_Some.
    rewrite (bind_Ok _ _ _ _ _ (get_place_Ok p (damaged s u amount) pl Hp)).
    rewrite bool_decide_eq_true_2 by (simpl; lia).
    rewrite (bind_Ok _ _ _ _ _ Hrun).
    rewrite (bind_Ok _ _ _ _ _ (get_insect_Ok _ _ _ Hut)).
    assert (Insect.place iu1 = Some p) as -> by done.
    by rewrite bind_deref_Some. }
  rewrite Hred.
  rewrite (Place_remove_insect_ant t u iu1 p pl'); try done;
    [|by simpl; rewrite Hf|congruence|by simpl; rewrite Hf
     |by simpl; rewrite Hf].
  eexists _, (Place.bees pl'). split; [done|].
  unfold place_of, visible_ant, bees_at, armor_of. simpl.
  rewrite !lookup_alter_eq, Hut, Hp'. simpl.
  repeat apply conj; try done.
  intros b ib Hb Hib.
  assert (b ≠ u) as Hbu by (by apply Hne).
  destruct (Hhit b ib Hb) as [Ha Hrest].
  { simpl. by rewrite lookup_alter_ne. }
  unfold armor_of, place_of in Ha, Hrest.
  rewrite !lookup_alter_ne by done. done.
Qed.

(** *** Instances *)

Example ninja_consistent : consistent (at_the_entrance "Ninja") = true.
Proof. vm_compute. reflexivity. Qed.

Example ninja_stored :
  insect_store (at_the_entrance "Ninja") !! 2%nat
  = Some (ant_of NinjaAnt (Some 9%nat)).
Proof. vm_compute. reflexivity. Qed.

Example ninja_entrance :
  place_store (at_the_entrance "Ninja") !! 9%nat
  = Some (entrance_place [0%nat; 1%nat] (Some 2%nat)).
Proof. vm_compute. reflexivity. Qed.

Lemma NinjaAnt_hits_every_bee_witness :
  ∃ s' bs,
    NinjaAnt_action 2%nat (at_the_entrance "Ninja") = Ok (tt, s')
    ∧ insect_store s' !! 2%nat = Some (ant_of NinjaAnt (Some 9%nat))
    ∧ visible_ant s' 9%nat
      = Place.ant (entrance_place [0%nat; 1%nat] (Some 2%nat))
    ∧ bees_at s' 9%nat = Some bs
    ∧ ∀ b ib, b ∈ Place.bees (entrance_place [0%nat; 1%nat] (Some 2%nat)) →
        insect_store (at_the_entrance "Ninja") !! b = Some ib →
        armor_of s' b
        = Some (Insect.armor ib - Insect.damage (ant_of NinjaAnt (Some 9%nat)))
        ∧ if bool_decide
               (Insect.armor ib - Insect.damage (ant_of NinjaAnt (Some 9%nat))
                ≤ 0)
          then place_of s' b = None ∧ b ∉ bs
          else place_of s' b = Some 9%nat ∧ b ∈ bs.
Proof.
  exact (NinjaAnt_hits_every_bee (at_the_entrance "Ninja") 2%nat
           (ant_of NinjaAnt (Some 9%nat)) 9%nat
           (entrance_place [0%nat; 1%nat] (Some 2%nat))
           ninja_consistent ninja_stored eq_refl eq_refl ninja_entrance).
Defined.

Lemma FireAnt_burns_every_bee_witness :
  ∃ s' bs,
    reduce_armor 2%nat 1 skirmish = Ok (tt, s')
    ∧ place_of s' 2%nat = None
    ∧ visible_ant s' 9%nat = None
    ∧ bees_at s' 9%nat = Some bs
    ∧ ∀ b ib, b ∈ Place.bees (entrance_place [0%nat; 1%nat] (Some 2%nat)) →
        insect_store skirmish !! b = Some ib →
        armor_of s' b
        = Some (Insect.armor ib - Insect.damage (ant_of FireAnt (Some 9%nat)))
        ∧ if bool_decide
               (Insect.armor ib - Insect.damage (ant_of FireAnt (Some 9%nat))
                ≤ 0)
          then place_of s' b = None ∧ b ∉ bs
          else place_of s' b = Some 9%nat ∧ b ∈ bs.
Proof.
  apply (FireAnt_burns_every_bee skirmish 2%nat (ant_of FireAnt (Some 9%nat))
           9%nat (entrance_place [0%nat; 1%nat] (Some 2%nat)) 1
           skirmish_consistent skirmish_fire_ant eq_refl eq_refl
           skirmish_entrance eq_refl).
  simpl. lia.
Defined.

(** ** The hungry ant *)

Lemma alter_insert_Some (m : gmap ref Insect.t) (r : ref) (i : Insect.t) f :
  m !! r = Some i → alter f r m = <[r := f i]> m.
Proof.
  intros H. apply map_eq. intros x. destruct (decide (x = r)) as [->|Hne].
  - by rewrite lookup_alter_eq, lookup_insert_eq, H.
  - by rewrite lookup_alter_ne, lookup_insert_ne.
Qed.

(** X14.  While it digests, the action of a hungry ant only counts down: [k]
    actions in a row, for [k] up to the turns of digestion left, change
    nothing but that count, whatever bees are in its place. *)
Theorem HungryAnt_digests (k : nat) :
  ∀ (s : State) (self : ref) (i : Insect.t),
    insect_store s !! self = Some i →
    Z.of_nat k ≤ Insect.digesting i →
    for_each (replicate k ()) (λ _, HungryAnt_action self) s
    = Ok (tt, set_insect_store
                (<[self := Insect.set_digesting
                             (Insect.digesting i - Z.of_nat k) i]>
                   (insect_store s)) s).
Proof.
  induction k as [|k IH]; intros s self i Hi Hk.
  - simpl. rewrite Z.sub_0_r. unfold mret, M_ret. do 2 f_equal.
    rewrite insert_id; [by destruct s|]. by destruct i.
  - cbn [replicate for_each].
    assert (HungryAnt_action self s
            = Ok (tt, set_insect_store
                        (<[self := Insect.set_digesting
                                     (Insect.digesting i - 1) i]>
                           (insect_store s)) s)) as Hstep.
    { unfold HungryAnt_action.
      rewrite (bind_Ok _ _ _ _ _ (get_insect_Ok _ _ _ Hi)).
      rewrite bool_decide_eq_true_2 by lia.
      unfold upd_insect, modify. by rewrite (alter_insert_Some _ _ i). }
    rewrite (bind_Ok _ _ _ _ _ Hstep).
    rewrite (IH _ self (Insect.set_digesting (Insect.digesting i - 1) i));
      [|by simpl; rewrite lookup_insert_eq|simpl; lia].
    simpl. rewrite insert_insert_eq.
    replace (Insect.digesting i - Z.of_nat (S k))
      with (Insect.digesting i - 1 - Z.of_nat k) by lia.
    reflexivity.
Qed.

(** X15.  A hungry ant that is not digesting, in a place with bees: it eats one
    of them, the one at the index given by the next draw of the generator;
    that bee is left without armor and leaves the place, and the ant
    digests for [time_to_digest] turns. *)
Theorem HungryAnt_eats (s : State) (self : ref) (i : Insect.t) (p : loc)
    (pl : Place.t) :
  consistent s = true →
  insect_store s !! self = Some i →
  is_ant (Insect.type i) = true →
  Insect.digesting i ≤ 0 →
  Insect.place i = Some p →
  place_store s !! p = Some pl →
  Place.bees pl ≠ [] →
  ∃ b s',
    HungryAnt_action self s = Ok (tt, s')
    ∧ Place.bees pl
        !! (hd 0%nat (random s) `mod` length (Place.bees pl))%nat = Some b
    ∧ armor_of s' b = Some 0
    ∧ gone s' b
    ∧ Insect.digesting <$> insect_store s' !! self = Some time_to_digest.
Proof.
  intros Hc Hself Ht Hd Hpl Hp Hne.
  destruct (consistent_place s p pl Hc Hp) as (Hnd & Hbees & _).
  destruct (random_choice_Ok (Place.bees pl) s Hne) as (b & Hpick & Hidx).
  assert (b ∈ Place.bees pl) as Hin by (by eapply list_elem_of_lookup_2).
  destruct (Hbees b Hin) as (ib & Hib & Htb & Hplb).
  assert (b ≠ self) as Hbs.
  { intros ->. rewrite Hself in Hib. injection Hib as <-. congruence. }
  pose proof (consistent_only_at s b ib p Hc Hib Hplb) as Honly.
  set (t := set_insect_store
              (alter (Insect.set_digesting time_to_digest) self
                 (insect_store (set_random (tail (random s)) s)))
              (set_random (tail (random s)) s)).
  assert (insect_store t !! b = Some ib) as Hib'.
  { subst t. simpl. by rewrite lookup_alter_ne. }
  set (ib1 := Insect.set_armor (Insect.armor ib - Insect.armor ib) ib).
  set (t1 := set_stdout (stdout t ++ [Expired b])
               (damaged t b (Insect.armor ib))).
  assert (HungryAnt_action self s = Place_remove_insect p b t1) as Hrun.
  { unfold HungryAnt_action.
    rewrite (bind_Ok _ _ _ _ _ (get_insect_Ok _ _ _ Hself)).
    rewrite bool_decide_eq_false_2 by lia. rewrite Hpl, bind_deref_Some.
    rewrite (bind_Ok _ _ _ _ _ (get_place_Ok _ _ _ Hp)).
    unfold random_or_none. destruct (Place.bees pl) eqn:E; [done|].
    rewrite bind_assoc, (bind_Ok _ _ _ _ _ Hpick), !bind_ret_l.
    rewrite (bind_Ok _ _ _ tt t eq_refl).
    unfold HungryAnt_eat_bee, reduce_armor.
    rewrite (bind_Ok _ _ _ _ _ (get_insect_Ok _ _ _ Hib')).
    rewrite (bind_Ok _ _ _ _ _ (get_insect_Ok _ _ _ Hib')).
    assert (Insect.type ib = Bee) as -> by (by destruct (Insect.type ib)).
    apply (Insect_reduce_armor_out t b ib p _ Hib' Hplb). lia. }
  assert (insect_store t1 !! b = Some ib1) as Hib1.
  { subst t1. simpl. by rewrite lookup_alter_eq, lookup_alter_ne, Hib. }
  destruct (list_remove_Some b _ Hin) as [bs Hbs'].
  destruct (Place_remove_insect_gone t1 b ib1 p pl) as (s' & Hrem & Hgone);
    try done.
  { subst ib1. simpl. by rewrite Htb. }
  { subst ib1. simpl. by destruct (Insect.type ib). }
  { subst ib1. simpl. by destruct (Insect.type ib). }
  exists b, s'. rewrite Hrun. split; [done|]. split; [done|].
  rewrite (Place_remove_insect_bee t1 b ib1 p pl bs) in Hrem by done.
  injection Hrem as <-.
  split; [|split; [done|]].
  - unfold armor_of. simpl.
    rewrite !lookup_alter_eq, lookup_alter_ne, Hib by done. simpl.
    f_equal. lia.
  - simpl. rewrite !lookup_alter_ne, lookup_alter_eq, Hself by done. done.
Qed.

(** *** Instances *)

Example hungry_after_meal_stored :
  insect_store hungry_after_meal !! 2%nat
  = Some (Insect.mk HungryAnt 1 (Some 9%nat) 0 Method 3 None [] false).
Proof. vm_compute. reflexivity. Qed.

Lemma HungryAnt_digests_witness :
  for_each (replicate 3 ()) (λ _, HungryAnt_action 2%nat) hungry_after_meal
  = Ok (tt, set_insect_store
              (<[2%nat := Insect.set_digesting
                   (Insect.digesting
                      (Insect.mk HungryAnt 1 (Some 9%nat) 0 Method 3 None []
                         false) - Z.of_nat 3)
                   (Insect.mk HungryAnt 1 (Some 9%nat) 0 Method 3 None []
                      false)]>
                 (insect_store hungry_after_meal)) hungry_after_meal).
Proof.
  apply (HungryAnt_digests 3 hungry_after_meal 2%nat
           (Insect.mk HungryAnt 1 (Some 9%nat) 0 Method 3 None [] false)
           hungry_after_meal_stored).
  simpl. lia.
Defined.

Example hungry_consistent : consistent (at_the_entrance "Hungry") = true.
Proof. vm_compute. reflexivity. Qed.

Example hungry_stored :
  insect_store (at_the_entrance "Hungry") !! 2%nat
  = Some (ant_of HungryAnt (Some 9%nat)).
Proof. vm_compute. reflexivity. Qed.

Example hungry_entrance :
  place_store (at_the_entrance "Hungry") !! 9%nat
  = Some (entrance_place [0%nat; 1%nat] (Some 2%nat)).
Proof. vm_compute. reflexivity. Qed.

Lemma HungryAnt_eats_witness :
  ∃ b s',
    HungryAnt_action 2%nat (at_the_entrance "Hungry") = Ok (tt, s')
    ∧ Place.bees (entrance_place [0%nat; 1%nat] (Some 2%nat))
        !! (hd 0%nat (random (at_the_entrance "Hungry"))
            `mod` length
                    (Place.bees (entrance_place [0%nat; 1%nat] (Some 2%nat))))%nat
      = Some b
    ∧ armor_of s' b = Some 0
    ∧ gone s' b
    ∧ Insect.digesting <$> insect_store s' !! 2%nat = Some time_to_digest.
Proof.
  apply (HungryAnt_eats (at_the_entrance "Hungry") 2%nat
           (ant_of HungryAnt (Some 9%nat)) 9%nat
           (entrance_place [0%nat; 1%nat] (Some 2%nat))
           hungry_consistent hungry_stored eq_refl).
  - simpl. lia.
  - reflexivity.
  - exact hungry_entrance.
  - simpl. discriminate.
Defined.

(** ** Throwers of status effects *)

(** X16.  A stun thrower's throw leaves the target's armor alone, and the next
    action of the target changes nothing in the game: it only uses up the
    one stunned turn.  With no target the throw does nothing. *)
Theorem StunThrower_throw_at_stuns (gas : nat) (s : State) (self b : ref)
    (ib : Insect.t) :
  insect_store s !! b = Some ib →
  StunThrower_throw_at self None s = Ok (tt, s)
  ∧ ∃ s1,
      StunThrower_throw_at self (Some b) s = Ok (tt, s1)
      ∧ armor_of s1 b = Some (Insect.armor ib)
      ∧ place_store s1 = place_store s
      ∧ action gas b s1
        = Ok (tt, set_insect_store
                    (<[b := Insect.set_action
                              (after_effect make_stun 0 (Insect.action ib)) ib]>
                       (insect_store s)) s).
Proof.
  intros Hb. split; [done|].
  eexists. split; [reflexivity|]. unfold armor_of. simpl.
  rewrite lookup_alter_eq, Hb. simpl. split; [done|]. split; [done|].
  unfold action. destruct gas; simpl; mrun;
    rewrite lookup_alter_eq, Hb; simpl;
    rewrite (alter_insert_Some (insect_store s) b ib _ Hb), alter_insert_eq;
    reflexivity.
Qed.

Lemma action_runs_closure (gas : nat) (b : ref) (i : Insect.t) (s : State) :
  insect_store s !! b = Some i →
  action gas b s
  = (a ← call (method_action gas
                 (λ a, match gas with
                       | O => raise OutOfFuel
                       | S n => Insect_action gas n a
                       end)
                 (Insect.type i) b) (Insect.action i);
     upd_insect b (Insect.set_action a)) s.
Proof.
  intros Hb. unfold action.
  destruct gas; simpl; by rewrite (bind_Ok _ _ _ _ _ (get_insect_Ok _ _ _ Hb)).
Qed.

Lemma apply_slow_odd (act : M Action) (idle : Action) (s : State) :
  time s `mod` 2 ≠ 0 → apply_Effect make_slow act idle s = Ok (idle, s).
Proof.
  intros H. unfold apply_Effect, mbind, M_bind, get.
  by rewrite bool_decide_eq_false_2.
Qed.

Lemma apply_slow_even (act : M Action) (idle : Action) (s : State) :
  time s `mod` 2 = 0 → apply_Effect make_slow act idle s = act s.
Proof.
  intros H. unfold apply_Effect, mbind, M_bind, get.
  by rewrite bool_decide_eq_true_2.
Qed.

(** X17.  A slow thrower's throw leaves the target's armor alone and slows it
    for three of its actions.  If the next action comes at an odd time it
    changes nothing in the game and uses up one of the three; at an even
    time it is the action the target had before.  With no target the throw
    does nothing. *)
Theorem SlowThrower_throw_at_slows (gas : nat) (s : State) (self b : ref)
    (ib : Insect.t) :
  insect_store s !! b = Some ib →
  SlowThrower_throw_at self None s = Ok (tt, s)
  ∧ ∃ s1,
      SlowThrower_throw_at self (Some b) s = Ok (tt, s1)
      ∧ armor_of s1 b = Some (Insect.armor ib)
      ∧ place_store s1 = place_store s
      ∧ time s1 = time s
      ∧ Insect.action <$> insect_store s1 !! b
        = Some (after_effect make_slow 3 (Insect.action ib))
      ∧ (time s `mod` 2 ≠ 0 →
         action gas b s1
         = Ok (tt, set_insect_store
                     (<[b := Insect.set_action
                               (after_effect make_slow 2 (Insect.action ib)) ib]>
                        (insect_store s)) s))
      ∧ (time s `mod` 2 = 0 →
         action gas b s1
         = (a ← call (method_action gas
                        (λ a, match gas with
                              | O => raise OutOfFuel
                              | S n => Insect_action gas n a
                              end)
                        (Insect.type ib) b) (Insect.action ib);
            upd_insect b
              (Insect.set_action (after_effect make_slow 2 a))) s1).
Proof.
  intros Hb. split; [done|].
  set (i1 := Insect.set_action (after_effect make_slow 3 (Insect.action ib)) ib).
  set (s1 := set_insect_store
               (alter (λ i, Insect.set_action
                              (after_effect make_slow 3 (Insect.action i)) i)
                  b (insect_store s)) s).
  assert (insect_store s1 !! b = Some i1) as Hb1.
  { subst s1. simpl. by rewrite lookup_alter_eq, Hb. }
  exists s1. split; [reflexivity|]. unfold armor_of. rewrite Hb1. simpl.
  repeat apply conj; try done.
  - intros Hodd. rewrite (action_runs_closure gas b i1 s1 Hb1).
    assert (Insect.action i1
            = after_effect make_slow 3 (Insect.action ib)) as -> by done.
    rewrite call_after_effect, bool_decide_eq_true_2 by lia.
    rewrite bind_assoc.
    rewrite (bind_Ok _ _ _ _ _ (apply_slow_odd _ _ s1 Hodd)).
    rewrite bind_ret_l. unfold upd_insect, modify. subst s1. simpl.
    rewrite (alter_insert_Some (insect_store s) b ib _ Hb), alter_insert_eq.
    reflexivity.
  - intros Heven. rewrite (action_runs_closure gas b i1 s1 Hb1).
    assert (Insect.action i1
            = after_effect make_slow 3 (Insect.action ib)) as -> by done.
    rewrite call_after_effect, bool_decide_eq_true_2 by lia.
    rewrite bind_assoc. unfold mbind at 1, M_bind at 1.
    rewrite (apply_slow_even _ _ s1 Heven).
    assert (Insect.type i1 = Insect.type ib) as -> by done.
    unfold mbind at 2, M_bind at 2.
    by destruct (call _ _ s1) as [[a s2]|e].
Qed.


(** *** Instances *)

Example stun_bee :
  insect_store (at_the_entrance "Stun") !! 0%nat = Some (bee_3 (Some 9%nat)).
Proof. vm_compute. reflexivity. Qed.

Example slow_bee :
  insect_store (at_the_entrance "Slow") !! 0%nat = Some (bee_3 (Some 9%nat)).
Proof. vm_compute. reflexivity. Qed.

Lemma StunThrower_throw_at_stuns_witness :
  StunThrower_throw_at 2%nat None (at_the_entrance "Stun")
  = Ok (tt, at_the_entrance "Stun")
  ∧ ∃ s1,
      StunThrower_throw_at 2%nat (Some 0%nat) (at_the_entrance "Stun")
      = Ok (tt, s1)
      ∧ armor_of s1 0%nat = Some (Insect.armor (bee_3 (Some 9%nat)))
      ∧ place_store s1 = place_store (at_the_entrance "Stun")
      ∧ action 9 0%nat s1
        = Ok (tt, set_insect_store
                    (<[0%nat := Insect.set_action
                         (after_effect make_stun 0
                            (Insect.action (bee_3 (Some 9%nat))))
                         (bee_3 (Some 9%nat))]>
                       (insect_store (at_the_entrance "Stun")))
                    (at_the_entrance "Stun")).
Proof.
  exact (StunThrower_throw_at_stuns 9 (at_the_entrance "Stun") 2%nat 0%nat
           (bee_3 (Some 9%nat)) stun_bee).
Defined.

Lemma SlowThrower_throw_at_slows_witness :
  SlowThrower_throw_at 2%nat None (at_the_entrance "Slow")
  = Ok (tt, at_the_entrance "Slow")
  ∧ ∃ s1,
      SlowThrower_throw_at 2%nat (Some 0%nat) (at_the_entrance "Slow")
      = Ok (tt, s1)
      ∧ armor_of s1 0%nat = Some (Insect.armor (bee_3 (Some 9%nat)))
      ∧ place_store s1 = place_store (at_the_entrance "Slow")
      ∧ time s1 = time (at_the_entrance "Slow")
      ∧ Insect.action <$> insect_store s1 !! 0%nat
        = Some (after_effect make_slow 3 (Insect.action (bee_3 (Some 9%nat))))
      ∧ (time (at_the_entrance "Slow") `mod` 2 ≠ 0 →
         action 9 0%nat s1
         = Ok (tt, set_insect_store
                     (<[0%nat := Insect.set_action
                          (after_effect make_slow 2
                             (Insect.action (bee_3 (Some 9%nat))))
                          (bee_3 (Some 9%nat))]>
                        (insect_store (at_the_entrance "Slow")))
                     (at_the_entrance "Slow")))
      ∧ (time (at_the_entrance "Slow") `mod` 2 = 0 →
         action 9 0%nat s1
         = (a ← call (method_action 9
                        (λ a, match 9%nat with
                              | O => raise OutOfFuel
                              | S n => Insect_action 9 n a
                              end)
                        (Insect.type (bee_3 (Some 9%nat))) 0%nat)
                   (Insect.action (bee_3 (Some 9%nat)));
            upd_insect 0%nat
              (Insect.set_action (after_effect make_slow 2 a))) s1).
Proof.
  exact (SlowThrower_throw_at_slows 9 (at_the_entrance "Slow") 2%nat 0%nat
           (bee_3 (Some 9%nat)) slow_bee).
Defined.

(** ** How [simulate] ends *)

Lemma keeps_queen_bees {X} (fld : State → X) q : keeps fld (queen_bees q).
Proof.
  induction q as [p|cq IH aq]; simpl.
  - apply keeps_bind; [apply keeps_get_place|]. intros; apply keeps_ret.
  - apply keeps_bind; [done|]. intros l.
    apply keeps_bind; [apply keeps_get_place|]. intros; apply keeps_ret.
Qed.

Lemma keeps_places_values {X} (fld : State → X) : keeps fld places_values.
Proof.
  unfold places_values. apply keeps_bind; [apply keeps_get|]. intros s.
  induction (places s) as [|[n p] l IH]; [apply keeps_ret|].
  apply keeps_bind; [apply keeps_get_place|]. intros pl.
  apply keeps_bind; [done|]. intros; apply keeps_ret.
Qed.

Lemma keeps_bees {X} (fld : State → X) : keeps fld bees.
Proof.
  unfold bees. apply keeps_bind; [apply keeps_places_values|].
  intros; apply keeps_ret.
Qed.

Lemma keeps_ants {X} (fld : State → X) : keeps fld ants.
Proof.
  unfold ants. apply keeps_bind; [apply keeps_places_values|].
  intros; apply keeps_ret.
Qed.

Lemma keeps_running {X} (fld : State → X) : keeps fld running.
Proof.
  unfold running. apply keeps_bind; [apply keeps_get|]. intros ?.
  apply keeps_bind; [apply keeps_queen_bees|]. intros ?.
  case_bool_decide; [|apply keeps_ret].
  apply keeps_bind; [apply keeps_bees|]. intros; apply keeps_ret.
Qed.

(** X18.  When [simulate] returns, what it printed last fits the state [e] in
    which its loop ended: it reports the loss only if a bee is in a place
    of [colony.queen], and the win only if no bee is there and no registered
    place has a bee.  The count of calls of [bee.action] never goes down. *)
Theorem simulate_outcome_fits (gas fuel : nat) (strategy : M unit) :
  ∀ (calls : nat) (s : State) (o : Outcome) (k : nat) (s' : State),
    simulate_loop gas fuel strategy calls s = Ok ((o, k), s') →
    (calls ≤ k)%nat
    ∧ ∃ e qb,
        queen_bees (queen e) e = Ok (qb, e)
        ∧ match o with
          | LOST => qb ≠ [] ∧ s' = set_stdout (stdout e ++ [Perished]) e
          | WON => qb = [] ∧ bees e = Ok ([], e)
                   ∧ s' = set_stdout (stdout e ++ [Vanquished]) e
          end.
Proof.
  assert (Hexit : ∀ calls s o k s',
    running s = Ok (false, s) →
    (get ≫= λ s : State, queen_bees (queen s) ≫= λ qb : list ref,
       if bool_decide (0 < length qb)%nat
       then print Perished ≫= λ _ : (), mret (LOST, calls)
       else print Vanquished ≫= λ _ : (), mret (WON, calls)) s = Ok (o, k, s') →
    (calls ≤ k)%nat ∧ ∃ e qb, queen_bees (queen e) e = Ok (qb, e)
        ∧ match o with
          | LOST => qb ≠ [] ∧ s' = set_stdout (stdout e ++ [Perished]) e
          | WON => qb = [] ∧ bees e = Ok ([], e)
                   ∧ s' = set_stdout (stdout e ++ [Vanquished]) e
          end).
  { intros calls s o k s' Hrun H.
    apply bind_inv_Ok in H as (s0 & s1 & [= E1 E2] & H). subst s0 s1.
    apply bind_inv_Ok in H as (qb & s1 & Hq & H).
    pose proof (keeps_queen_bees (λ x, x) _ _ _ _ Hq) as Heq. simpl in Heq. subst s1.
    unfold running in Hrun.
    apply bind_inv_Ok in Hrun as (s0 & s1 & [= E1 E2] & Hrun). subst s0 s1.
    rewrite (bind_Ok _ _ _ _ _ Hq) in Hrun.
    destruct qb as [|b qb]; simpl in H, Hrun.
    - apply bind_inv_Ok in Hrun as (bs & s2 & Hb & [= Hbs E3]). subst s2.
      destruct bs; [|done].
      revert H. unfold print. munfold. intros [= <- <- <-].
      split; [done|]. by exists s, [].
    - revert H. unfold print. munfold. intros [= <- <- <-].
      split; [done|]. by exists s, (b :: qb). }
  induction fuel as [|fuel IH]; intros calls s o k s' H.
  all: cbn [simulate_loop] in H.
  all: apply bind_inv_Ok in H as (go & s1 & Hrun & H).
  all: pose proof (keeps_running (λ x, x) _ _ _ Hrun) as Heq; simpl in Heq; subst s1.
  all: destruct go.
  - done.
  - by eapply Hexit.
  - apply bind_inv_Ok in H as (n & s2 & Hc & H).
    destruct (IH _ _ _ _ _ H) as (Hle & e & qb & He). split; [lia|]. eauto.
  - by eapply Hexit.
Qed.

(** *** Instance *)

Example one_thrower_simulation :
  simulate_loop 9 5 (thrower_at "tunnel_0_0") 0 (one_tunnel 10)
  = Ok ((WON, 4%nat),
        state_of (simulate_loop 9 5 (thrower_at "tunnel_0_0") 0) (one_tunnel 10)).
Proof. apply value_of_Some. vm_compute. reflexivity. Qed.

Lemma simulate_outcome_fits_witness :
  (0 ≤ 4)%nat
  ∧ ∃ e qb,
      queen_bees (queen e) e = Ok (qb, e)
      ∧ qb = [] ∧ bees e = Ok ([], e)
      ∧ state_of (simulate_loop 9 5 (thrower_at "tunnel_0_0") 0) (one_tunnel 10)
        = set_stdout (stdout e ++ [Vanquished]) e.
Proof.
  exact (simulate_outcome_fits 9 5 (thrower_at "tunnel_0_0") 0%nat
           (one_tunnel 10) WON 4%nat _ one_thrower_simulation).
Defined.

(** ** What a turn leaves alone *)

Global Instance bee_entrances_attr : Colony_attr bee_entrances.
Proof. by split. Qed.
Global Instance assault_plan_attr : Colony_attr assault_plan.
Proof. by split. Qed.
Global Instance number_of_queens_attr : Colony_attr number_of_queens.
Proof. by split. Qed.

Section Keeps_turn.
Context {X : Type} (fld : State → X) `{!Colony_attr fld}.
Hypothesis fld_food : ∀ v s, fld (set_food v s) = fld s.
Hypothesis fld_queen : ∀ v s, fld (set_queen v s) = fld s.

Lemma keeps_Bee_move_to self place : keeps fld (Bee_move_to self place).
Proof. unfold Bee_move_to. keeps_auto. Qed.

Lemma keeps_Bee_action self : keeps fld (Bee_action self).
Proof.
  unfold Bee_action, Bee_blocked, Bee_sting.
  repeat first [apply keeps_Bee_move_to | apply keeps_reduce_armor | keeps_step];
    done.
Qed.

Lemma keeps_NinjaAnt_action self : keeps fld (NinjaAnt_action self).
Proof. unfold NinjaAnt_action. keeps_auto. Qed.

Lemma keeps_HungryAnt_action self : keeps fld (HungryAnt_action self).
Proof. unfold HungryAnt_action, HungryAnt_eat_bee. keeps_auto. Qed.

Lemma keeps_ThrowerAnt_action gas self : keeps fld (ThrowerAnt_action gas self).
Proof.
  unfold ThrowerAnt_action.
  repeat first [apply keeps_nearest_bee | apply keeps_throw_at | keeps_step]; done.
Qed.

Lemma keeps_QueenAnt_action gas self : keeps fld (QueenAnt_action gas self).
Proof.
  unfold QueenAnt_action.
  repeat first
    [ apply keeps_nearest_bee | apply keeps_throw_at | apply keeps_reduce_armor
    | apply keeps_ants_in_same_tunnel | apply keeps_upd_insect
    | apply keeps_modify; intros ?; apply fld_queen
    | keeps_step ]; done.
Qed.

Lemma keeps_method_action gas delegate t self :
  (∀ a, keeps fld (delegate a)) → keeps fld (method_action gas delegate t self).
Proof.
  intros Hd. destruct t; simpl.
  all: first
    [ apply keeps_Bee_action | apply keeps_ThrowerAnt_action
    | apply keeps_NinjaAnt_action | apply keeps_HungryAnt_action
    | apply keeps_QueenAnt_action | apply keeps_ret | idtac ].
  - unfold HarvesterAnt_action. apply keeps_modify. intros; apply fld_food.
  - repeat keeps_step; done.
Qed.

Lemma keeps_call (method : M unit) a : keeps fld method → keeps fld (call method a).
Proof.
  intros Hm. induction a as [|effect duration a IH]; simpl.
  - apply keeps_bind; [done|]. intros; apply keeps_ret.
  - case_bool_decide.
    + apply keeps_bind; [|intros; apply keeps_ret].
      destruct effect; simpl; [|apply keeps_ret].
      apply keeps_bind; [apply keeps_get|]. intros s.
      case_bool_decide; [done | apply keeps_ret].
    + apply keeps_bind; [done|]. intros; apply keeps_ret.
Qed.

Lemma keeps_Insect_action gas n insect : keeps fld (Insect_action gas n insect).
Proof.
  revert insect. induction n as [|n IH]; intros insect; simpl.
  all: apply keeps_bind; [apply keeps_get_insect|]; intros i.
  all: apply keeps_bind; [|intros; apply keeps_upd_insect; done].
  all: apply keeps_call, keeps_method_action; intros a.
  - apply keeps_raise.
  - apply IH.
Qed.

Lemma keeps_take_actions gas l : keeps fld (take_actions gas l).
Proof.
  induction l as [|x l IH]; simpl; [apply keeps_ret|].
  apply keeps_bind; [apply keeps_get_insect|]. intros i.
  case_bool_decide; [|done].
  apply keeps_bind; [apply keeps_Insect_action|]. intros _.
  apply keeps_bind; [done|]. intros; apply keeps_ret.
Qed.

Lemma keeps_Hive_strategy h : keeps fld (Hive_strategy h).
Proof.
  unfold Hive_strategy.
  apply keeps_bind; [apply keeps_places_values|]. intros ps.
  apply keeps_bind; [apply keeps_get|]. intros s.
  apply keeps_for_each. intros b.
  apply keeps_bind; [by apply keeps_random_choice|]. intros e.
  apply keeps_Bee_move_to.
Qed.

End Keeps_turn.

(** X19.  No insect's action changes the time, the registered places, the hive,
    the ant classes on offer, the entrances of the bees, the assault plan
    or the count of queens. *)
Theorem action_leaves_colony_setup (gas : nat) (r : ref) (s s' : State) :
  action gas r s = Ok (tt, s') →
  time s' = time s ∧ places s' = places s ∧ hive s' = hive s
  ∧ ant_types s' = ant_types s ∧ bee_entrances s' = bee_entrances s
  ∧ assault_plan s' = assault_plan s
  ∧ number_of_queens s' = number_of_queens s.
Proof.
  intros H. unfold action in H.
  pose proof (λ X (fld : State → X) `{!Colony_attr fld} Hf Hq,
    keeps_Insect_action fld Hf Hq gas gas r _ _ _ H) as K.
  repeat apply conj.
  - exact (K _ time _ (λ _ _, eq_refl) (λ _ _, eq_refl)).
  - exact (K _ places _ (λ _ _, eq_refl) (λ _ _, eq_refl)).
  - exact (K _ hive _ (λ _ _, eq_refl) (λ _ _, eq_refl)).
  - exact (K _ ant_types _ (λ _ _, eq_refl) (λ _ _, eq_refl)).
  - exact (K _ bee_entrances _ (λ _ _, eq_refl) (λ _ _, eq_refl)).
  - exact (K _ assault_plan _ (λ _ _, eq_refl) (λ _ _, eq_refl)).
  - exact (K _ number_of_queens _ (λ _ _, eq_refl) (λ _ _, eq_refl)).
Qed.

(** X20.  One iteration of the loop of [simulate] adds exactly 1 to the time,
    whatever the insects do, when the player's strategy leaves the time
    alone. *)
Theorem cycle_advances_time (gas : nat) (strategy : M unit) (s s' : State)
    (k : nat) :
  keeps time strategy →
  cycle gas strategy s = Ok (k, s') →
  time s' = time s + 1.
Proof.
  intros Hs H. unfold cycle in H.
  apply bind_inv_Ok in H as (s0 & s1 & [= E1 E2] & H). subst s0 s1.
  apply bind_inv_Ok in H as ([] & s1 & H1 & H).
  apply bind_inv_Ok in H as ([] & s2 & H2 & H).
  apply bind_inv_Ok in H as (l & s3 & H3 & H).
  apply bind_inv_Ok in H as (k1 & s4 & H4 & H).
  apply bind_inv_Ok in H as (l' & s5 & H5 & H).
  apply bind_inv_Ok in H as (k2 & s6 & H6 & H).
  revert H. unfold modify. munfold. intros [= _ <-]. simpl.
  rewrite (keeps_take_actions time (λ _ _, eq_refl) (λ _ _, eq_refl) _ _ _ _ _ H6).
  rewrite (keeps_bees time _ _ _ H5).
  rewrite (keeps_take_actions time (λ _ _, eq_refl) (λ _ _, eq_refl) _ _ _ _ _ H4).
  rewrite (keeps_ants time _ _ _ H3).
  rewrite (Hs _ _ _ H2).
  by rewrite (keeps_Hive_strategy time _ _ _ _ H1).
Qed.

(** *** Instances *)

Example skirmish_queen_acts :
  action 9 5%nat skirmish = Ok (tt, state_of (action 9 5%nat) skirmish).
Proof. apply value_of_Some. vm_compute. reflexivity. Qed.

Lemma action_leaves_colony_setup_witness :
  time (state_of (action 9 5%nat) skirmish) = time skirmish
  ∧ places (state_of (action 9 5%nat) skirmish) = places skirmish
  ∧ hive (state_of (action 9 5%nat) skirmish) = hive skirmish
  ∧ ant_types (state_of (action 9 5%nat) skirmish) = ant_types skirmish
  ∧ bee_entrances (state_of (action 9 5%nat) skirmish) = bee_entrances skirmish
  ∧ assault_plan (state_of (action 9 5%nat) skirmish) = assault_plan skirmish
  ∧ number_of_queens (state_of (action 9 5%nat) skirmish)
    = number_of_queens skirmish.
Proof.
  exact (action_leaves_colony_setup 9 5%nat skirmish _ skirmish_queen_acts).
Defined.

Lemma keeps_time_deploy_ant place_name ant_type_name :
  keeps time (deploy_ant place_name ant_type_name).
Proof.
  unfold deploy_ant, lookup_key.
  apply keeps_bind; [apply keeps_get|]. intros s.
  apply keeps_bind; [destruct (dict_get _ _); [apply keeps_ret|apply keeps_raise]|].
  intros t. case_bool_decide; [by apply keeps_print|].
  apply keeps_bind; [destruct (dict_get _ _); [apply keeps_ret|apply keeps_raise]|].
  intros p. apply keeps_bind.
  - unfold construct. apply keeps_bind.
    + intros s0 a s' [= _ <-]. done.
    + intros r. apply keeps_bind; [|intros; apply keeps_ret].
      destruct t; try apply keeps_ret.
      apply keeps_bind; [apply keeps_get|]. intros s0.
      case_bool_decide; [|apply keeps_ret].
      apply keeps_bind; [by apply keeps_modify|]. intros _.
      by apply keeps_upd_insect.
  - intros a. apply keeps_bind; [by apply keeps_add_insect|]. intros _.
    by apply keeps_modify.
Qed.

Lemma keeps_time_thrower_at place_name : keeps time (thrower_at place_name).
Proof.
  unfold thrower_at. apply keeps_bind; [apply keeps_get|]. intros s.
  case_bool_decide; [apply keeps_time_deploy_ant | apply keeps_ret].
Qed.

Example one_thrower_cycle :
  cycle 9 (thrower_at "tunnel_0_0") (one_tunnel 10)
  = Ok (1%nat, state_of (cycle 9 (thrower_at "tunnel_0_0")) (one_tunnel 10)).
Proof. apply value_of_Some. vm_compute. reflexivity. Qed.

Lemma cycle_advances_time_witness :
  time (state_of (cycle 9 (thrower_at "tunnel_0_0")) (one_tunnel 10))
  = time (one_tunnel 10) + 1.
Proof.
  exact (cycle_advances_time 9 (thrower_at "tunnel_0_0") (one_tunnel 10) _
           1%nat (keeps_time_thrower_at "tunnel_0_0") one_thrower_cycle).
Defined.

(** ** The action of a bee *)

(** [Bee.blocked]: the ant of the bee's place, if any, blocks the path. *)
Lemma Bee_blocked_Ok s b ib p pl :
  insect_store s !! b = Some ib → Insect.place ib = Some p →
  place_store s !! p = Some pl →
  match Place.ant pl with
  | Some a => is_Some (insect_store s !! a)
  | None => True
  end →
  Bee_blocked b s
  = Ok (match Place.ant pl with
        | Some a => from_option (λ ia, block_path (Insect.type ia)) false
                      (insect_store s !! a)
        | None => false
        end, s).
Proof.
  intros Hb Hpl Hp Ha. unfold Bee_blocked. mrun. rewrite Hb. simpl.
  rewrite Hpl. simpl. rewrite Hp. simpl.
  destruct (Place.ant pl) as [a|]; [|done].
  destruct Ha as [ia Ha]. by rewrite Ha.
Qed.

(** X21.  A bee with armor left that is outside the hive and whose place has no
    ant that blocks the path moves to the exit of its place: it leaves the
    bees of its place, is appended to the bees of the exit and points to
    it, with its armor as before; no ant moves and no other place changes. *)
Theorem Bee_action_moves (s : State) (b : ref) (ib : Insect.t)
    (p q : loc) (pl ql : Place.t) :
  insect_store s !! b = Some ib →
  is_ant (Insect.type ib) = false →
  Insect.place ib = Some p →
  place_store s !! p = Some pl →
  b ∈ Place.bees pl →
  match Place.ant pl with
  | Some a => ∃ ia, insect_store s !! a = Some ia
                    ∧ block_path (Insect.type ia) = false
  | None => True
  end →
  Place.name pl ≠ "Hive" →
  Insect.armor ib > 0 →
  Place.exit pl = Some q →
  place_store s !! q = Some ql →
  ∃ bs s',
    list_remove b (Place.bees pl) = Some bs
    ∧ Bee_action b s = Ok (tt, s')
    ∧ place_of s' b = Some q
    ∧ bees_at s' q = Some ((if decide (q = p) then bs else Place.bees ql) ++ [b])
    ∧ (q ≠ p → bees_at s' p = Some bs)
    ∧ armor_of s' b = Some (Insect.armor ib)
    ∧ (∀ r, visible_ant s' r = visible_ant s r)
    ∧ (∀ r, r ≠ p → r ≠ q → place_store s' !! r = place_store s !! r)
    ∧ (∀ r, r ≠ b → insect_store s' !! r = insect_store s !! r).
Proof.
  intros Hb Ht Hpl Hp Hin Hant Hname Harm Hexit Hq.
  destruct (list_remove_Some _ _ Hin) as [bs Hbs]. exists bs.
  assert (Bee_blocked b s = Ok (false, s)) as Hbl.
  { rewrite (Bee_blocked_Ok s b ib p pl Hb Hpl Hp).
    - destruct (Place.ant pl) as [a|]; [|done].
      destruct Hant as (ia & -> & Hbp). simpl. by rewrite Hbp.
    - destruct (Place.ant pl) as [a|]; [|done].
      destruct Hant as (ia & -> & _). eauto. }
  set (s1 := set_insect_store (alter (Insect.set_place None) b (insect_store s))
               (set_place_store (alter (Place.set_bees bs) p (place_store s)) s)).
  assert (is_Some (place_store s1 !! q)) as [ql1 Hq1].
  { subst s1. simpl. destruct (decide (q = p)) as [->|Hne].
    - rewrite lookup_alter_eq, Hp. eauto.
    - rewrite lookup_alter_ne by done. eauto. }
  assert (insect_store s1 !! b = Some (Insect.set_place None ib)) as Hb1.
  { subst s1. simpl. by rewrite lookup_alter_eq, Hb. }
  eexists. split; [done|]. split.
  - unfold Bee_action. rewrite (bind_Ok _ _ _ _ _ Hbl).
    rewrite (bind_Ok _ _ _ _ _ (get_insect_Ok _ _ _ Hb)), Hpl. simpl.
    rewrite bind_ret_l.
    rewrite (bind_Ok _ _ _ _ _ (get_place_Ok _ _ _ Hp)).
    rewrite bool_decide_eq_true_2 by done.
    rewrite bool_decide_eq_true_2 by done. simpl.
    unfold Bee_move_to.
    rewrite (bind_Ok _ _ _ _ _ (get_insect_Ok _ _ _ Hb)), Hpl. simpl.
    rewrite bind_ret_l.
    rewrite (bind_Ok _ _ _ _ _ (Place_remove_insect_bee _ _ _ _ _ _ Hb Ht Hp Hbs)).
    rewrite Hexit. simpl. rewrite bind_ret_l.
    fold s1. exact (add_insect_bee s1 q ql1 b _ Hq1 Hb1 Ht).
  - unfold place_of, bees_at, armor_of, visible_ant. simpl.
    rewrite !lookup_alter_eq, Hb. simpl.
    repeat apply conj; try done.
    + destruct (decide (q = p)) as [->|Hne].
      * by rewrite lookup_alter_eq, Hp.
      * by rewrite lookup_alter_ne, Hq.
    + intros Hne. rewrite lookup_alter_ne by done.
      by rewrite lookup_alter_eq, Hp.
    + intros r. destruct (decide (r = q)) as [->|Hr].
      * rewrite lookup_alter_eq. destruct (decide (q = p)) as [->|Hne].
        -- rewrite lookup_alter_eq. by destruct (place_store s !! p).
        -- rewrite lookup_alter_ne by done. by destruct (place_store s !! q).
      * rewrite lookup_alter_ne by done. destruct (decide (r = p)) as [->|Hne].
        -- rewrite lookup_alter_eq. by destruct (place_store s !! p).
        -- by rewrite lookup_alter_ne.
    + intros r Hr1 Hr2. by rewrite !lookup_alter_ne.
    + intros r Hr. by rewrite !lookup_alter_ne.
Qed.

(** X22.  A bee whose place has no ant that blocks the path stays where it is,
    and nothing changes, when it is in the hive or has no armor left; a bee
    whose place has an ant that blocks the path stings that ant instead,
    even in the hive or without armor. *)
Theorem Bee_action_stays (s : State) (b : ref) (ib : Insect.t)
    (p : loc) (pl : Place.t) :
  insect_store s !! b = Some ib →
  Insect.place ib = Some p →
  place_store s !! p = Some pl →
  (Place.name pl = "Hive" ∨ Insect.armor ib ≤ 0 →
   match Place.ant pl with
   | Some a => ∃ ia, insect_store s !! a = Some ia
                     ∧ block_path (Insect.type ia) = false
   | None => True
   end →
   Bee_action b s = Ok (tt, s))
  ∧ (∀ a ia, Place.ant pl = Some a → insect_store s !! a = Some ia →
       block_path (Insect.type ia) = true →
       Bee_action b s = reduce_armor a 1 s).
Proof.
  intros Hb Hpl Hp.
  assert (∀ bl, Bee_blocked b s = Ok (bl, s) →
    Bee_action b s
    = if bl then (a ← deref (Place.ant pl); reduce_armor a 1) s
      else if bool_decide (Place.name pl ≠ "Hive")
              && bool_decide (Insect.armor ib > 0)
           then Bee_move_to b (Place.exit pl) s else Ok (tt, s)) as Hact.
  { intros bl Hbl. unfold Bee_action. rewrite (bind_Ok _ _ _ _ _ Hbl).
    rewrite (bind_Ok _ _ _ _ _ (get_insect_Ok _ _ _ Hb)), Hpl. simpl.
    rewrite bind_ret_l.
    rewrite (bind_Ok _ _ _ _ _ (get_place_Ok _ _ _ Hp)).
    destruct bl; [|by destruct (_ && _)].
    by destruct (Place.ant pl). }
  split.
  - intros Hstay Hant. rewrite (Hact false).
    + destruct Hstay as [Hn|Ha].
      * by rewrite (bool_decide_eq_false_2 (Place.name pl ≠ "Hive")) by (by intros []).
      * rewrite (bool_decide_eq_false_2 (Insect.armor ib > 0)) by lia.
        by rewrite andb_false_r.
    + rewrite (Bee_blocked_Ok s b ib p pl Hb Hpl Hp).
      * destruct (Place.ant pl) as [a|]; [|done].
        destruct Hant as (ia & -> & Hbp). simpl. by rewrite Hbp.
      * destruct (Place.ant pl) as [a|]; [|done].
        destruct Hant as (ia & -> & _). eauto.
  - intros a ia Hant Ha Hbp. rewrite (Hact true).
    + by rewrite Hant.
    + rewrite (Bee_blocked_Ok s b ib p pl Hb Hpl Hp).
      * rewrite Hant, Ha. simpl. by rewrite Hbp.
      * rewrite Hant, Ha. eauto.
Qed.

(** *** Instances *)

Example ninja_bee :
  insect_store (at_the_entrance "Ninja") !! 0%nat = Some (bee_3 (Some 9%nat)).
Proof. vm_compute. reflexivity. Qed.

Example ninja_next_place :
  place_store (at_the_entrance "Ninja") !! 8%nat
  = Some (Place.mk "tunnel_0_6" TPlace (Some 7%nat) [] None (Some 9%nat)).
Proof. vm_compute. reflexivity. Qed.

Lemma Bee_action_moves_witness :
  ∃ bs s',
    list_remove 0%nat (Place.bees (entrance_place [0%nat; 1%nat] (Some 2%nat)))
    = Some bs
    ∧ Bee_action 0%nat (at_the_entrance "Ninja") = Ok (tt, s')
    ∧ place_of s' 0%nat = Some 8%nat
    ∧ bees_at s' 8%nat
      = Some ((if decide (8%nat = 9%nat) then bs
               else Place.bees (Place.mk "tunnel_0_6" TPlace (Some 7%nat) []
                                  None (Some 9%nat))) ++ [0%nat])
    ∧ (8%nat ≠ 9%nat → bees_at s' 9%nat = Some bs)
    ∧ armor_of s' 0%nat = Some (Insect.armor (bee_3 (Some 9%nat)))
    ∧ (∀ r, visible_ant s' r = visible_ant (at_the_entrance "Ninja") r)
    ∧ (∀ r, r ≠ 9%nat → r ≠ 8%nat →
         place_store s' !! r = place_store (at_the_entrance "Ninja") !! r)
    ∧ (∀ r, r ≠ 0%nat →
         insect_store s' !! r = insect_store (at_the_entrance "Ninja") !! r).
Proof.
  apply (Bee_action_moves (at_the_entrance "Ninja") 0%nat (bee_3 (Some 9%nat))
           9%nat 8%nat (entrance_place [0%nat; 1%nat] (Some 2%nat))
           (Place.mk "tunnel_0_6" TPlace (Some 7%nat) [] None (Some 9%nat))
           ninja_bee eq_refl eq_refl ninja_entrance).
  - simpl. apply elem_of_cons. left. reflexivity.
  - simpl. exists (ant_of NinjaAnt (Some 9%nat)). split.
    + exact ninja_stored.
    + reflexivity.
  - simpl. discriminate.
  - simpl. lia.
  - reflexivity.
  - exact ninja_next_place.
Defined.

Example one_tunnel_bee :
  insect_store (one_tunnel 10) !! 0%nat = Some (bee_3 (Some 0%nat)).
Proof. vm_compute. reflexivity. Qed.

Example one_tunnel_hive :
  place_store (one_tunnel 10) !! 0%nat
  = Some (Place.mk "Hive" THive None [0%nat] None None).
Proof. vm_compute. reflexivity. Qed.

Example skirmish_second_bee :
  insect_store skirmish !! 1%nat = Some (bee_3 (Some 9%nat)).
Proof. vm_compute. reflexivity. Qed.

Lemma Bee_action_stays_witness :
  Bee_action 0%nat (one_tunnel 10) = Ok (tt, one_tunnel 10)
  ∧ Bee_action 1%nat skirmish = reduce_armor 2%nat 1 skirmish.
Proof.
  split.
  - apply (proj1 (Bee_action_stays (one_tunnel 10) 0%nat (bee_3 (Some 0%nat))
                    0%nat (Place.mk "Hive" THive None [0%nat] None None)
                    one_tunnel_bee eq_refl one_tunnel_hive)).
    + left. reflexivity.
    + exact I.
  - apply (proj2 (Bee_action_stays skirmish 1%nat (bee_3 (Some 9%nat)) 9%nat
                    (entrance_place [0%nat; 1%nat] (Some 2%nat))
                    skirmish_second_bee eq_refl skirmish_entrance)
             2%nat (ant_of FireAnt (Some 9%nat))).
    + reflexivity.
    + exact skirmish_fire_ant.
    + reflexivity.
Defined.

(** ** Setting up places and waves *)

(** X23.  [Place(name, exit)] makes a place that no insect is in, with the given
    exit and no entrance, and makes it the entrance of its exit, in place
    of the entrance the exit had; no other place changes. *)
Theorem Place_init_links (t : PlaceType) (name : string) (e : loc)
    (el : Place.t) (s : State) :
  place_store s !! e = Some el →
  ∃ p s',
    Place_init t name (Some e) s = Ok (p, s')
    ∧ place_store s !! p = None
    ∧ place_store s' !! p = Some (Place.mk name t (Some e) [] None None)
    ∧ place_store s' !! e = Some (Place.set_entrance (Some p) el)
    ∧ (∀ q, q ≠ p → q ≠ e → place_store s' !! q = place_store s !! q)
    ∧ insect_store s' = insect_store s.
Proof.
  intros He.
  set (p := fresh (dom (place_store s))).
  assert (place_store s !! p = None) as Hp
    by apply not_elem_of_dom, is_fresh.
  assert (p ≠ e) as Hne by (intros ->; congruence).
  exists p. eexists. split.
  - unfold Place_init, new_place. mrun. fold p.
    reflexivity.
  - simpl. repeat apply conj; try done.
    + rewrite lookup_alter_ne by done. by rewrite lookup_insert_eq.
    + by rewrite lookup_alter_eq, lookup_insert_ne, He.
    + intros q H1 H2. by rewrite lookup_alter_ne, lookup_insert_ne.
Qed.

Lemma dict_get_set_eq {K V} `{EqDecision K} (k : K) (v : V) d :
  dict_get k (dict_set k v d) = Some v.
Proof.
  induction d as [|[k' v'] d IH]; simpl.
  - by rewrite decide_True.
  - destruct (decide (k' = k)) as [->|Hne]; simpl.
    + by rewrite decide_True.
    + by rewrite decide_False.
Qed.

Lemma dict_get_set_ne {K V} `{EqDecision K} (k k0 : K) (v : V) d :
  k0 ≠ k → dict_get k0 (dict_set k v d) = dict_get k0 d.
Proof.
  intros Hne. induction d as [|[k' v'] d IH]; simpl.
  - by rewrite decide_False.
  - destruct (decide (k' = k)) as [->|Hk]; simpl.
    + by rewrite !decide_False.
    + destruct (decide (k' = k0)); done.
Qed.

Lemma new_bees_fresh (bee_armor : Z) (count : nat) (s : State) :
  ∃ bs st,
    new_bees bee_armor count s = Ok (bs, set_insect_store st s)
    ∧ length bs = count
    ∧ NoDup bs
    ∧ (∀ b, b ∈ bs →
         insect_store s !! b = None
         ∧ st !! b = Some (Insect.mk Bee bee_armor None 0 Method 0 None [] false))
    ∧ (∀ r i, insect_store s !! r = Some i → st !! r = Some i).
Proof.
  revert s. induction count as [|n IH]; intros s.
  - exists [], (insect_store s). repeat apply conj; try done.
    + by destruct s.
    + constructor.
    + by intros b ?%elem_of_nil.
  - set (b := fresh (dom (insect_store s))).
    set (ib := Insect.mk Bee bee_armor None 0 Method 0 None [] false).
    assert (insect_store s !! b = None) as Hb by apply not_elem_of_dom, is_fresh.
    destruct (IH (set_insect_store (<[b := ib]> (insect_store s)) s))
      as (bs & st & Hrun & Hlen & Hnd & Hbs & Hold).
    simpl in Hbs, Hold.
    exists (b :: bs), st. repeat apply conj.
    + cbn [new_bees]. unfold new_bee, new_insect.
      unfold mbind at 1, M_bind at 1. fold b ib.
      rewrite (bind_Ok _ _ _ _ _ Hrun). by destruct s.
    + simpl. by rewrite Hlen.
    + apply NoDup_cons. split; [|done].
      intros Hin. destruct (Hbs _ Hin) as [Hnone _].
      by rewrite lookup_insert_eq in Hnone.
    + intros r [->|Hin]%elem_of_cons.
      * split; [done|]. apply Hold. by rewrite lookup_insert_eq.
      * destruct (Hbs _ Hin) as [Hnone Hsome]. split; [|done].
        destruct (decide (r = b)) as [->|Hne]; [done|].
        by rewrite lookup_insert_ne in Hnone.
    + intros r i Hr. apply Hold.
      rewrite lookup_insert_ne; [done|]. intros <-. congruence.
Qed.

(** X24.  [add_wave(time, count)] makes [count] new bees of the plan's armor, in
    no place, and appends them to the wave the plan has for [time] (a new
    wave if it has none); the waves of other times and the insects and
    places there were stay as they are. *)
Theorem add_wave_appends (bee_armor time : Z) (count : nat)
    (plan : list (Z * list ref)) (s : State) :
  ∃ bs plan' s',
    add_wave bee_armor time count plan s = Ok (plan', s')
    ∧ dict_get time plan' = Some (default [] (dict_get time plan) ++ bs)
    ∧ (∀ t, t ≠ time → dict_get t plan' = dict_get t plan)
    ∧ length bs = count
    ∧ NoDup bs
    ∧ (∀ b, b ∈ bs →
         insect_store s !! b = None
         ∧ insect_store s' !! b
           = Some (Insect.mk Bee bee_armor None 0 Method 0 None [] false))
    ∧ (∀ r i, insect_store s !! r = Some i → insect_store s' !! r = Some i)
    ∧ place_store s' = place_store s.
Proof.
  destruct (new_bees_fresh bee_armor count s)
    as (bs & st & Hrun & Hlen & Hnd & Hbs & Hold).
  exists bs. eexists. eexists. split.
  - unfold add_wave. rewrite (bind_Ok _ _ _ _ _ Hrun). reflexivity.
  - repeat apply conj; try done.
    + apply dict_get_set_eq.
    + intros t Ht. by apply dict_get_set_ne.
Qed.

(** *** Instance *)

Example one_tunnel_queen_place :
  place_store (one_tunnel 10) !! 1%nat
  = Some (Place.mk "AntQueen" TPlace None [] None (Some 2%nat)).
Proof. vm_compute. reflexivity. Qed.

Lemma Place_init_links_witness :
  ∃ p s',
    Place_init TPlace "tunnel_1_0" (Some 1%nat) (one_tunnel 10) = Ok (p, s')
    ∧ place_store (one_tunnel 10) !! p = None
    ∧ place_store s' !! p
      = Some (Place.mk "tunnel_1_0" TPlace (Some 1%nat) [] None None)
    ∧ place_store s' !! 1%nat
      = Some (Place.set_entrance (Some p)
                (Place.mk "AntQueen" TPlace None [] None (Some 2%nat)))
    ∧ (∀ q, q ≠ p → q ≠ 1%nat →
         place_store s' !! q = place_store (one_tunnel 10) !! q)
    ∧ insect_store s' = insect_store (one_tunnel 10).
Proof.
  exact (Place_init_links TPlace "tunnel_1_0" 1%nat
           (Place.mk "AntQueen" TPlace None [] None (Some 2%nat))
           (one_tunnel 10) one_tunnel_queen_place).
Defined.
